(** * Piano-Classification: the training script [train.py]

    A shallow embedding of the bookkeeping of [train.py]: the epoch loop with
    its running loss, the three per-epoch tracking lists, the plateau
    scheduler call, the final test evaluation, the CSV files written by
    [save_history], and the command-line flags.

    The network, the loss function, the optimizer and the plateau scheduler
    are collaborators of the script (torch); they enter through the
    interface [Torch].  The three metric functions of scikit-learn the
    script calls are modelled from their documented definitions, and the
    command-line parser from the implementation of [argparse].  Python
    floats are an interface ([Scalar]) with two instances: IEEE binary64
    ([float], the arithmetic the script runs in) and exact rationals ([Q],
    used where a statement is about the laws of arithmetic). *)

From Stdlib Require Import ZArith QArith List Sorted String Ascii Bool Lia Floats Uint63.
Import ListNotations.
Open Scope Z_scope.

Set Implicit Arguments.

(** ** Python values *)

(** The exceptions the modelled code can raise.  [UnboundLocalError] is a
    subclass of [NameError] in Python. *)
Inductive exn : Type :=
| ZeroDivisionError
| UnboundLocalError (name : string)
| IndexError
| ValueError (msg : string).

Definition is_NameError (e : exn) : bool :=
  match e with
  | UnboundLocalError _ => true
  | _ => false
  end.

(** A computation either returns or raises. *)
Inductive result (A : Type) : Type :=
| Ok (a : A)
| Raise (e : exn).

Arguments Ok {A} a.
Arguments Raise {A} e.

Definition bind {A B : Type} (c : result A) (k : A -> result B) : result B :=
  match c with
  | Ok a => k a
  | Raise e => Raise e
  end.

Notation "x <- c ;; k" := (bind c (fun x => k))
  (at level 61, c at next level, right associativity).

(** Python's floats, as far as the script uses them: conversion from [int],
    [+], [*], [/] and [<=]. *)
Class Scalar (F : Type) : Type := {
  of_Z : Z -> F;
  fadd : F -> F -> F;
  fmul : F -> F -> F;
  fdiv : F -> F -> F;
  fleb : F -> F -> bool
}.

(** IEEE binary64.  [Uint63.of_Z] is exact below [2^63], which covers every
    count and constant of the script. *)
Definition float_of_Z (z : Z) : float :=
  if z <? 0 then PrimFloat.opp (PrimFloat.of_uint63 (Uint63.of_Z (- z)))
  else PrimFloat.of_uint63 (Uint63.of_Z z).

#[export] Instance Scalar_float : Scalar float := {
  of_Z := float_of_Z;
  fadd := PrimFloat.add;
  fmul := PrimFloat.mul;
  fdiv := PrimFloat.div;
  fleb := PrimFloat.leb
}.

(** Exact arithmetic. *)
#[export] Instance Scalar_Q : Scalar Q := {
  of_Z := inject_Z;
  fadd := Qplus;
  fmul := Qmult;
  fdiv := Qdiv;
  fleb := Qle_bool
}.

(** "[x] lies in the closed interval [[lo, hi]]", by the comparisons of the
    scalar type (both are false on a NaN). *)
Definition in_range {F : Type} `{Scalar F} (lo hi : Z) (x : F) : bool :=
  fleb (of_Z lo) x && fleb x (of_Z hi).

(** ** The scikit-learn metrics the script calls

    [accuracy_score], [confusion_matrix] and [classification_report] are
    library functions; they are modelled from their documented definitions,
    on the label lists the script passes them (one true and one predicted
    class index per sample). *)
Section Metrics.
Context {F : Type} `{Scalar F}.

(** Number of positions [k] with [y_true[k] = a] and [y_pred[k] = b]. *)
Fixpoint count_pair (a b : Z) (y_true y_pred : list Z) : nat :=
  match y_true, y_pred with
  | t :: y_true', p :: y_pred' =>
      (if Z.eqb t a && Z.eqb p b then 1 else 0)%nat
      + count_pair a b y_true' y_pred'
  | _, _ => 0%nat
  end.

(** Number of positions at which the two lists agree. *)
Fixpoint count_equal (y_true y_pred : list Z) : nat :=
  match y_true, y_pred with
  | t :: y_true', p :: y_pred' =>
      (if Z.eqb t p then 1 else 0)%nat + count_equal y_true' y_pred'
  | _, _ => 0%nat
  end.

Definition of_nat (n : nat) : F := of_Z (Z.of_nat n).

(** [accuracy_score(y_true, y_pred)]: the mean of the indicator
    [y_true == y_pred], that is the number of agreeing positions divided
    by the number of samples (numpy's mean: on no sample this is the
    float division of zero by zero). *)
Definition accuracy_score (y_true y_pred : list Z) : F :=
  fdiv (of_nat (count_equal y_true y_pred)) (of_nat (List.length y_true)).

(** [unique_labels(y_true, y_pred)]: the labels that occur, ascending,
    each once. *)
Fixpoint insert_label (x : Z) (l : list Z) : list Z :=
  match l with
  | [] => [x]
  | y :: l' =>
      if x <? y then x :: l
      else if x =? y then l
      else y :: insert_label x l'
  end.

Definition unique_labels (y_true y_pred : list Z) : list Z :=
  fold_right insert_label [] (y_true ++ y_pred).

(** The integer confusion matrix: row [i], column [j] counts the samples
    whose true class is the [i]-th label and predicted class the [j]-th. *)
Definition confusion_counts (y_true y_pred : list Z) : list (list nat) :=
  let labels := unique_labels y_true y_pred in
  map (fun a => map (fun b => count_pair a b y_true y_pred) labels) labels.

(** [cm.sum()] of the integer matrix. *)
Definition counts_total (cm : list (list nat)) : nat :=
  list_sum (map list_sum cm).

(** [confusion_matrix(y_true, y_pred, normalize="all")]: every count is
    divided by the sum of all counts, [cm / cm.sum()].  (The library then
    maps NaN to 0; a cell exists only when a sample does, so the sum is
    not zero wherever a division takes place.) *)
Definition confusion_matrix_all (y_true y_pred : list Z) : list (list F) :=
  let cm := confusion_counts y_true y_pred in
  let total := of_nat (counts_total cm) in
  map (map (fun c => fdiv (of_nat c) total)) cm.

(** numpy's [m.sum()] over all cells of a matrix. *)
Definition matrix_sum (m : list (list F)) : F :=
  fold_left (fun acc row => fold_left fadd row acc) m (of_Z 0).

(** One line of the classification report. *)
Record report_row : Type := {
  class_name : string;
  precision : F;
  recall : F;
  f1_score : F;
  support : nat
}.

(** A quotient of counts that is 0 on a zero denominator
    (the library's [zero_division] default). *)
Definition prf_divide (num den : nat) : F :=
  if Nat.eqb den 0 then of_Z 0 else fdiv (of_nat num) (of_nat den).

Definition count_label (a : Z) (l : list Z) : nat :=
  List.length (filter (Z.eqb a) l).

Definition class_row (y_true y_pred : list Z) (a : Z) (name : string)
  : report_row :=
  let tp := count_pair a a y_true y_pred in
  let p := prf_divide tp (count_label a y_pred) in
  let r := prf_divide tp (count_label a y_true) in
  {| class_name := name;
     precision := p;
     recall := r;
     f1_score :=
       if Nat.eqb tp 0 then of_Z 0
       else fdiv (fmul (of_Z 2) (fmul p r)) (fadd p r);
     support := count_label a y_true |}.

(** [classification_report(y_true, y_pred, target_names=classes)]: one row
    per occurring label, named by position.  The library raises
    [ValueError] when the number of occurring labels differs from the
    number of names, and also when there is no label at all (a report
    without a row cannot be laid out).  The summary lines (accuracy, macro
    and weighted averages) and the text layout are not modelled. *)
Definition classification_report (y_true y_pred : list Z)
    (target_names : list string) : result (list report_row) :=
  let labels := unique_labels y_true y_pred in
  if negb (Nat.eqb (List.length labels) (List.length target_names))
  then Raise (ValueError "Number of classes does not match size of target_names")
  else if Nat.eqb (List.length target_names) 0
  then Raise (ValueError "max() arg is an empty sequence")
  else Ok (map (fun an => class_row y_true y_pred (fst an) (snd an))
             (combine labels target_names)).

End Metrics.

Arguments report_row : clear implicits.

(** ** Command line

    [argparse] with the three options of the script, as CPython 3.11
    implements it ([ArgumentParser._parse_known_args] and the methods it
    calls).  Tokens are byte strings; the digits of the parser's
    negative-number pattern are taken to be the ASCII digits.  Wherever
    the parser calls [error] or prints its help, the process exits before
    [train] is called: that is [None] here. *)

(** The Python values that end up in the namespace: a [str], a [bool], or
    the empty list. *)
Inductive value : Type :=
| Str (s : string)
| Bool (b : bool)
| EmptyList.

Coercion Str : string >-> value.
Bind Scope string_scope with value.

(** Python's truth value of a value, as [if] and the conditional
    expression take it. *)
Definition truth (v : value) : bool :=
  match v with
  | Str s => negb (String.eqb s "")
  | Bool b => b
  | EmptyList => false
  end.

(** The argument string each option was last given, if any. *)
Record raw_namespace : Type := {
  raw_model : option string;
  raw_fl : option string;
  raw_fullfinetune : option string
}.

Record namespace : Type := {
  arg_model : value;
  arg_fl : value;
  arg_fullfinetune : value
}.

(** Python's [bool(s)] on a string: true unless the string is empty. *)
Definition python_bool (s : string) : bool := negb (String.eqb s "").

(** The parser's actions: [-h]/[--help], which [ArgumentParser] adds by
    itself, and one [store] action per [add_argument]. *)
Inductive action : Type := help | store_model | store_fl | store_fullfinetune.

(** [parser._option_string_actions] *)
Definition option_string_actions : list (string * action) :=
  [("-h", help); ("--help", help); ("--model", store_model);
   ("--fl", store_fl); ("--fullfinetune", store_fullfinetune)]%string.

Definition lookup_option (option_string : string) : option action :=
  option_map snd
    (find (fun sa => String.eqb (fst sa) option_string) option_string_actions).

(** [tok.split('=', 1)] when ['=' in tok]. *)
Definition split_equals (tok : string) : option (string * string) :=
  match String.index 0 "=" tok with
  | Some k =>
      Some (String.substring 0 k tok,
            String.substring (S k) (String.length tok - S k) tok)
  | None => None
  end.

(** [_get_option_tuples]: the options a token that is no option string
    can stand for.  A token that begins with two dashes abbreviates every
    option string it is a prefix of (up to its first [=]); a token that
    begins with one dash is a one-letter option with its argument
    attached. *)
Definition get_option_tuples (option_string : string)
  : list (action * string * option string) :=
  match option_string with
  | String c0 (String c1 short_explicit_arg) =>
      if Ascii.eqb c0 "-" && Ascii.eqb c1 "-" then
        let '(option_prefix, explicit_arg) :=
          match split_equals option_string with
          | Some (p, e) => (p, Some e)
          | None => (option_string, None)
          end in
        flat_map (fun sa =>
                    if String.prefix option_prefix (fst sa)
                    then [(snd sa, fst sa, explicit_arg)] else [])
          option_string_actions
      else if Ascii.eqb c0 "-" && negb (Ascii.eqb c1 "-") then
        let short_option_prefix := String c0 (String c1 EmptyString) in
        flat_map (fun sa =>
                    if String.eqb (fst sa) short_option_prefix
                    then [(snd sa, fst sa, Some short_explicit_arg)]
                    else if String.prefix option_string (fst sa)
                    then [(snd sa, fst sa, None)] else [])
          option_string_actions
      else []
  | _ => []
  end.

Definition is_digit (c : ascii) : bool :=
  (48 <=? nat_of_ascii c)%nat && (nat_of_ascii c <=? 57)%nat.

Fixpoint all_digits (s : string) : bool :=
  match s with
  | EmptyString => true
  | String c s' => is_digit c && all_digits s'
  end.

(** One digit or more. *)
Definition digits (s : string) : bool :=
  negb (String.eqb s "") && all_digits s.

(** What a pattern that ends in [$] has to match: the string without one
    final newline. *)
Fixpoint before_final_newline (s : string) : string :=
  match s with
  | EmptyString => EmptyString
  | String c s' =>
      match s' with
      | EmptyString => if Ascii.eqb c "010" then EmptyString else s
      | _ => String c (before_final_newline s')
      end
  end.

(** [parser._negative_number_matcher]: the pattern
    [^-\d+$|^-\d*\.\d+$]. *)
Definition negative_number_matcher (arg_string : string) : bool :=
  match arg_string with
  | String c rest =>
      Ascii.eqb c "-"
      && let body := before_final_newline rest in
         (digits body
          || match String.index 0 "." body with
             | Some k =>
                 all_digits (String.substring 0 k body)
                 && digits (String.substring (S k) (String.length body - S k)
                              body)
             | None => false
             end)
  | EmptyString => false
  end.

Fixpoint contains (c : ascii) (s : string) : bool :=
  match s with
  | EmptyString => false
  | String c' s' => Ascii.eqb c c' || contains c s'
  end.

(** What [_parse_optional] makes of a token: [None] (the token is an
    argument), an option tuple (whose action is [None] for an option the
    parser does not know), or an error for an ambiguous abbreviation. *)
Inductive parsed_optional : Type :=
| positional
| optional (a : option action) (option_string : string)
    (explicit_arg : option string)
| ambiguous.

Definition parse_optional (arg_string : string) : parsed_optional :=
  match arg_string with
  | EmptyString => positional
  | String c _ =>
      if negb (Ascii.eqb c "-") then positional
      else
        match lookup_option arg_string with
        | Some a => optional (Some a) arg_string None
        | None =>
            if Nat.eqb (String.length arg_string) 1 then positional
            else
              match
                match split_equals arg_string with
                | Some (option_string, explicit_arg) =>
                    option_map (fun a => (a, option_string, explicit_arg))
                      (lookup_option option_string)
                | None => None
                end
              with
              | Some (a, option_string, explicit_arg) =>
                  optional (Some a) option_string (Some explicit_arg)
              | None =>
                  match get_option_tuples arg_string with
                  | _ :: _ :: _ => ambiguous
                  | [(a, option_string, explicit_arg)] =>
                      optional (Some a) option_string explicit_arg
                  | [] =>
                      if negative_number_matcher arg_string then positional
                      else if contains " " arg_string then positional
                      else optional None arg_string None
                  end
              end
        end
  end.

(** The tokens with pattern [A], which an option takes as its argument:
    those that are not [--] and that [_parse_optional] does not read as an
    option. *)
Definition is_argument (arg_string : string) : bool :=
  negb (String.eqb arg_string "--")
  && match parse_optional arg_string with
     | positional => true
     | _ => false
     end.

(** A [store] action records its argument string; [help] prints the usage
    and exits. *)
Definition set_option (a : action) (arg_string : string) (raw : raw_namespace)
  : option raw_namespace :=
  match a with
  | help => None
  | store_model =>
      Some {| raw_model := Some arg_string; raw_fl := raw_fl raw;
              raw_fullfinetune := raw_fullfinetune raw |}
  | store_fl =>
      Some {| raw_model := raw_model raw; raw_fl := Some arg_string;
              raw_fullfinetune := raw_fullfinetune raw |}
  | store_fullfinetune =>
      Some {| raw_model := raw_model raw; raw_fl := raw_fl raw;
              raw_fullfinetune := Some arg_string |}
  end.

(** The loop of [_parse_known_args] for a parser without positional
    arguments: every token has to be consumed by an option.  An option
    with an explicit argument ([--name=value]) is one token; any other
    option needs the next token, which has to be an argument.  A [--], a
    token left over, an unknown option and an ambiguous abbreviation all
    end in [error]. *)
Fixpoint scan_args (argv : list string) (raw : raw_namespace)
  : option raw_namespace :=
  match argv with
  | [] => Some raw
  | arg_string :: rest =>
      if String.eqb arg_string "--" then None
      else
        match parse_optional arg_string with
        | optional (Some a) _ (Some explicit_arg) =>
            match set_option a explicit_arg raw with
            | Some raw' => scan_args rest raw'
            | None => None
            end
        | optional (Some a) _ None =>
            match rest with
            | arg :: rest' =>
                if is_argument arg then
                  match set_option a arg raw with
                  | Some raw' => scan_args rest' raw'
                  | None => None
                  end
                else None
            | [] => None
            end
        | _ => None
        end
  end.

Definition no_options : raw_namespace :=
  {| raw_model := None; raw_fl := None; raw_fullfinetune := None |}.

(** [_get_values(action, [arg_string])] for an option with [nargs=None]:
    the first [--] is removed from the list of argument strings; a single
    string is then converted by the option's [type], while the list that
    the removal has emptied is stored as it is. *)
Definition get_values (type : string -> value) (arg_string : string) : value :=
  if String.eqb arg_string "--" then EmptyList else type arg_string.

(** [parser.parse_args()]: [--model] has [type=str] and default
    ["squeezenet1_1"]; [--fl] and [--fullfinetune] have [type=bool] and
    default [True]. *)
Definition convert (raw : raw_namespace) : namespace :=
  {| arg_model :=
       match raw_model raw with
       | Some s => get_values Str s
       | None => Str "squeezenet1_1"
       end;
     arg_fl :=
       match raw_fl raw with
       | Some s => get_values (fun s => Bool (python_bool s)) s
       | None => Bool true
       end;
     arg_fullfinetune :=
       match raw_fullfinetune raw with
       | Some s => get_values (fun s => Bool (python_bool s)) s
       | None => Bool true
       end |}.

Definition parse_args (argv : list string) : option namespace :=
  option_map convert (scan_args argv no_options).


(** The two loss functions [train] chooses from. *)
Inductive criterion_kind : Type := FocalLoss | CrossEntropyLoss.

(** [FocalLoss(num_samples) if args.fl else nn.CrossEntropyLoss()] *)
Definition select_criterion (args : namespace) : criterion_kind :=
  if truth (arg_fl args) then FocalLoss else CrossEntropyLoss.

(** ** The training script *)

(** *** Collaborators

    torch and the modules [model], [data] and [utils] of the repository:
    [net] is the network's parameters together with the optimizer's
    buffers, [batch] what a loader yields (a dict with a ["mel"] and a
    ["label"] tensor), [plateau] the state of [ReduceLROnPlateau].  Only
    the optimizer step changes [net]; what a forward call may do to the
    network's buffers is not tracked. *)
Class Torch (F net batch plateau : Type) : Type := {
  (** [data["label"].tolist()] *)
  labels : batch -> list Z;
  (** [torch.max(model.forward(data["mel"]).data, 1)[1]] at row [k] *)
  predicted : net -> batch -> nat -> Z;
  (** [criterion(model.forward(inputs), labels).item()] *)
  criterion : criterion_kind -> net -> batch -> F;
  (** [optimizer.zero_grad(); loss.backward(); optimizer.step()] at the
      optimizer's current learning rate *)
  optimize : criterion_kind -> net -> F -> batch -> net;
  (** the scheduler's constructor, given [threshold=lr] *)
  ReduceLROnPlateau : F -> plateau;
  (** [scheduler.step(metric)]: the new scheduler state and the learning
      rate it leaves in the optimizer *)
  scheduler_step : plateau -> F -> F -> plateau * F;
  (** [Net(cls_num, m_ver=backbone_ver, full_finetune=...)] *)
  Net : nat -> value -> value -> net
}.

(** What [prepare_data] and [load_data] return: the class names and the
    batches each loader yields when it is iterated. *)
Record dataset (batch : Type) : Type := {
  classes : list string;
  traLoader : list batch;
  valLoader : list batch;
  tesLoader : list batch
}.

(** *** Observable actions, in program order *)
Inductive event (F batch : Type) : Type :=
| ReadLr (lr : F)               (* lr_list.append(optimizer lr) *)
| Forward (data : batch)        (* model.forward(inputs) *)
| OptStep (lr : F) (loss : F)   (* loss.backward(); optimizer.step() *)
| LogLoss (avg : F)             (* loss_list.append(...) *)
| LogTrainAcc (acc : F)         (* tra_acc_list.append(acc) *)
| LogValidAcc (acc : F)         (* val_acc_list.append(acc) *)
| SchedStep (metric : F).       (* scheduler.step(metric) *)

Arguments ReadLr {F batch} lr.
Arguments Forward {F batch} data.
Arguments OptStep {F batch} lr loss.
Arguments LogLoss {F batch} avg.
Arguments LogTrainAcc {F batch} acc.
Arguments LogValidAcc {F batch} acc.
Arguments SchedStep {F batch} metric.

(** The local variables of [train] that the epoch loop reads and writes.
    [loss] is unbound until the first batch has been processed. *)
Record locals (F net batch plateau : Type) : Type := {
  model : net;
  optimizer_lr : F;
  scheduler : plateau;
  tra_acc_list : list F;
  val_acc_list : list F;
  loss_list : list F;
  lr_list : list F;
  running_loss : F;
  loss : option F;
  trace : list (event F batch)
}.

(** A cell of a CSV row. *)
Inductive cell (F : Type) : Type :=
| Text (s : string)
| Num (x : F).

Arguments Text {F} s.
Arguments Num {F} x.

(** What [save_log] writes to [result.log]: the classification report and
    the run's settings (the time stamps aside). *)
Record log_text (F : Type) : Type := {
  log_report : list (report_row F);
  log_backbone : value;
  log_fullfinetune : value;
  log_focal_loss : value
}.

(** The files [save_history] and [save_log] write into the run directory
    (the plots aside). *)
Record run_files (F net : Type) : Type := {
  acc_csv : list (list (cell F));
  loss_csv : list (list (cell F));
  save_pt : net;
  result_log : log_text F;
  mat_csv : list (list F)
}.

Section Script.
Context {F net batch plateau : Type} `{Scalar F} `{Torch F net batch plateau}.

#[local] Abbreviation event := (event F batch).
#[local] Abbreviation locals := (locals F net batch plateau).

(** *** The evaluation functions *)

(** The loop the three evaluation functions share: one forward call per
    batch, the labels and the predicted classes appended to [y_true] and
    [y_pred]. *)
Fixpoint predict_loop (model : net) (loader : list batch)
    (y_true y_pred : list Z) (tr : list event)
  : list Z * list Z * list event :=
  match loader with
  | [] => (y_true, y_pred, tr)
  | data :: loader' =>
      predict_loop model loader'
        (y_true ++ labels data)
        (y_pred ++ map (predicted model data) (seq 0 (List.length (labels data))))
        (tr ++ [Forward data])
  end.

Definition eval_model_train (model : net) (trainLoader : list batch)
    (tra_acc_list : list F) (tr : list event) : list F * list event :=
  let '(y_true, y_pred, tr') := predict_loop model trainLoader [] [] tr in
  let acc := fmul (of_Z 100) (accuracy_score y_true y_pred) in
  (tra_acc_list ++ [acc], tr' ++ [LogTrainAcc acc]).

Definition eval_model_valid (model : net) (validationLoader : list batch)
    (val_acc_list : list F) (tr : list event) : list F * list event :=
  let '(y_true, y_pred, tr') := predict_loop model validationLoader [] [] tr in
  let acc := fmul (of_Z 100) (accuracy_score y_true y_pred) in
  (val_acc_list ++ [acc], tr' ++ [LogValidAcc acc]).

Definition eval_model_test (model : net) (testLoader : list batch)
    (target_names : list string) (tr : list event)
  : result (list (report_row F) * list (list F) * list event) :=
  let '(y_true, y_pred, tr') := predict_loop model testLoader [] [] tr in
  report <- classification_report y_true y_pred target_names ;;
  let cm := confusion_matrix_all y_true y_pred in
  Ok (report, cm, tr').

(** *** The epoch loop *)

(** One pass of the body of [for i, data in enumerate(traLoader, 0)]. *)
Definition train_batch (kind : criterion_kind) (iteration : Z)
    (i : nat) (data : batch) (st : locals) : result locals :=
  let l := criterion kind (model st) data in
  let model' := optimize kind (model st) (optimizer_lr st) data in
  let running := fadd (running_loss st) l in
  let tr := trace st ++ [Forward data; OptStep (optimizer_lr st) l] in
  if iteration =? 0 then Raise ZeroDivisionError
  else
    let record := Z.of_nat i mod iteration =? iteration - 1 in
    let avg := fdiv running (of_Z iteration) in
    Ok {| model := model';
          optimizer_lr := optimizer_lr st;
          scheduler := scheduler st;
          tra_acc_list := tra_acc_list st;
          val_acc_list := val_acc_list st;
          loss_list := if record then loss_list st ++ [avg] else loss_list st;
          lr_list := lr_list st;
          running_loss := of_Z 0;
          loss := Some l;
          trace := if record then tr ++ [LogLoss avg] else tr |}.

Fixpoint batch_loop (kind : criterion_kind) (iteration : Z)
    (i : nat) (loader : list batch) (st : locals) : result locals :=
  match loader with
  | [] => Ok st
  | data :: loader' =>
      st' <- train_batch kind iteration i data st ;;
      batch_loop kind iteration (S i) loader' st'
  end.

(** The head of the body of [for epoch in range(epoch_num)]: the
    optimizer's learning rate is read and logged, and [running_loss] is
    set to [0.0]. *)
Definition begin_epoch (st : locals) : locals :=
  let lr_str := optimizer_lr st in
  {| model := model st;
     optimizer_lr := optimizer_lr st;
     scheduler := scheduler st;
     tra_acc_list := tra_acc_list st;
     val_acc_list := val_acc_list st;
     loss_list := loss_list st;
     lr_list := lr_list st ++ [lr_str];
     running_loss := of_Z 0;
     loss := loss st;
     trace := trace st ++ [ReadLr lr_str] |}.

(** The body of [for epoch in range(epoch_num)]. *)
Definition train_epoch (ds : dataset batch) (kind : criterion_kind)
    (iteration : Z) (st : locals) : result locals :=
  let st1 := begin_epoch st in
  st2 <- batch_loop kind iteration 0 (traLoader ds) st1 ;;
  let '(tra, tr3) :=
    eval_model_train (model st2) (traLoader ds) (tra_acc_list st2) (trace st2) in
  let '(val, tr4) :=
    eval_model_valid (model st2) (valLoader ds) (val_acc_list st2) tr3 in
  match loss st2 with
  | None => Raise (UnboundLocalError "loss")
  | Some l =>
      let '(sched', lr') := scheduler_step (scheduler st2) l (optimizer_lr st2) in
      Ok {| model := model st2;
            optimizer_lr := lr';
            scheduler := sched';
            tra_acc_list := tra;
            val_acc_list := val;
            loss_list := loss_list st2;
            lr_list := lr_list st2;
            running_loss := running_loss st2;
            loss := loss st2;
            trace := tr4 ++ [SchedStep l] |}
  end.

Fixpoint epoch_loop (ds : dataset batch) (kind : criterion_kind)
    (iteration : Z) (epochs : nat) (st : locals) : result locals :=
  match epochs with
  | O => Ok st
  | S epochs' =>
      st' <- train_epoch ds kind iteration st ;;
      epoch_loop ds kind iteration epochs' st'
  end.

(** *** Saving the history *)

(** Python's [l[i]] for [i >= 0]. *)
Definition getitem (l : list F) (i : nat) : result F :=
  match nth_error l i with
  | Some x => Ok x
  | None => Raise IndexError
  end.

(** [for i in range(acc_len):
       writer.writerow([tra_acc_list[i], val_acc_list[i], lr_list[i]])] *)
Fixpoint write_acc_rows (tra val lrs : list F) (range : list nat)
  : result (list (list (cell F))) :=
  match range with
  | [] => Ok []
  | i :: range' =>
      a <- getitem tra i ;;
      v <- getitem val i ;;
      r <- getitem lrs i ;;
      rows <- write_acc_rows tra val lrs range' ;;
      Ok ([Num a; Num v; Num r] :: rows)
  end.

(** [for i in range(loss_len): writer.writerow([loss_list[i]])] *)
Fixpoint write_loss_rows (losses : list F) (range : list nat)
  : result (list (list (cell F))) :=
  match range with
  | [] => Ok []
  | i :: range' =>
      x <- getitem losses i ;;
      rows <- write_loss_rows losses range' ;;
      Ok ([Num x] :: rows)
  end.

(** [save_log]: [result.log] and, through [np.savetxt], [mat.csv]. *)
Definition save_log (args : namespace) (cls_report : list (report_row F))
    (cm : list (list F)) : log_text F * list (list F) :=
  ({| log_report := cls_report;
      log_backbone := arg_model args;
      log_fullfinetune := arg_fullfinetune args;
      log_focal_loss := arg_fl args |},
   cm).

Definition save_history (args : namespace) (st : locals)
    (cls_report : list (report_row F)) (cm : list (list F))
  : result (run_files F net) :=
  let acc_len := List.length (tra_acc_list st) in
  acc_rows <- write_acc_rows (tra_acc_list st) (val_acc_list st) (lr_list st)
                (seq 0 acc_len) ;;
  let loss_len := List.length (loss_list st) in
  loss_rows <- write_loss_rows (loss_list st) (seq 0 loss_len) ;;
  Ok {| acc_csv :=
          [Text "tra_acc_list"; Text "val_acc_list"; Text "lr_list"] :: acc_rows;
        loss_csv := [Text "loss_list"] :: loss_rows;
        save_pt := model st;
        result_log := fst (save_log args cls_report cm);
        mat_csv := snd (save_log args cls_report cm) |}.

(** The rows of a CSV file below its header line. *)
Definition data_rows (csv : list (list (cell F))) : list (list (cell F)) :=
  tl csv.

(** *** [train] *)

Definition with_trace (st : locals) (tr : list event) : locals :=
  {| model := model st;
     optimizer_lr := optimizer_lr st;
     scheduler := scheduler st;
     tra_acc_list := tra_acc_list st;
     val_acc_list := val_acc_list st;
     loss_list := loss_list st;
     lr_list := lr_list st;
     running_loss := running_loss st;
     loss := loss st;
     trace := tr |}.

(** The state in which the epoch loop is entered. *)
Definition initial_locals (ds : dataset batch) (args : namespace)
    (backbone_ver : value) (lr : F) : locals :=
  {| model := Net (List.length (classes ds)) backbone_ver (arg_fullfinetune args);
     optimizer_lr := lr;
     scheduler := ReduceLROnPlateau lr;
     tra_acc_list := [];
     val_acc_list := [];
     loss_list := [];
     lr_list := [];
     running_loss := of_Z 0;
     loss := None;
     trace := [] |}.

(** The epoch loop of [train], from the initial state:
    [for epoch in range(epoch_num)] runs [max(epoch_num, 0)] times. *)
Definition train_epochs (ds : dataset batch) (args : namespace)
    (backbone_ver : value) (epoch_num iteration : Z) (lr : F)
  : result locals :=
  epoch_loop ds (select_criterion args) iteration (Z.to_nat epoch_num)
    (initial_locals ds args backbone_ver lr).

(** [train(backbone_ver, epoch_num, iteration, lr)], reading the global
    [args] and the data [ds] that [prepare_data] and [load_data] provide:
    the epoch loop, the test evaluation, and [save_history]. *)
Definition train (ds : dataset batch) (args : namespace)
    (backbone_ver : value) (epoch_num iteration : Z) (lr : F)
  : result (locals * run_files F net) :=
  st <- train_epochs ds args backbone_ver epoch_num iteration lr ;;
  tested <- eval_model_test (model st) (tesLoader ds) (classes ds) (trace st) ;;
  let '(cls_report, cm, tr) := tested in
  files <- save_history args st cls_report cm ;;
  Ok (with_trace st tr, files).

(** The script's entry point: [train(backbone_ver=args.model, epoch_num=40)]
    with the defaults [iteration=10] and [lr=0.001]; [None] when argparse
    exits instead of returning the arguments. *)
Definition main (ds : dataset batch) (argv : list string)
  : option (result (locals * run_files F net)) :=
  match parse_args argv with
  | Some args =>
      Some (train ds args (arg_model args) 40 10 (fdiv (of_Z 1) (of_Z 1000)))
  | None => None
  end.

End Script.

(** ** A scripted run

    An instance of the collaborators on which the script can be run: every
    batch carries the loss the criterion reports on it and the classes the
    network predicts for its rows; the network state counts the optimizer
    steps taken; the scheduler keeps the best metric seen and divides the
    learning rate by ten whenever the metric it is given is not below it. *)
Module Scripted.

Record batch (F : Type) : Type := {
  batch_loss : F;
  batch_labels : list Z;
  batch_predicted : list Z
}.

Definition step_plateau {F : Type} `{Scalar F}
    (best : option F) (metric lr : F) : option F * F :=
  match best with
  | None => (Some metric, lr)
  | Some b =>
      if fleb b metric then (best, fdiv lr (of_Z 10)) else (Some metric, lr)
  end.

#[export] Instance torch {F : Type} `{Scalar F}
  : Torch F nat (batch F) (option F) := {
  labels := @batch_labels F;
  predicted := fun _ data k => nth k (batch_predicted data) 0;
  criterion := fun _ _ data => batch_loss data;
  optimize := fun _ steps _ _ => S steps;
  ReduceLROnPlateau := fun _ => None;
  scheduler_step := step_plateau;
  Net := fun _ _ _ => O
}.

(** A batch of two rows with true classes 0 and 1, both predicted as 0,
    on which the criterion reports the loss [l]. *)
Definition two_rows {F : Type} (l : F) : batch F :=
  {| batch_loss := l; batch_labels := [0; 1]; batch_predicted := [0; 0] |}.

(** A batch of two rows of class 0, both predicted as class 0. *)
Definition first_class_only : batch float :=
  {| batch_loss := 0%float; batch_labels := [0; 0]; batch_predicted := [0; 0] |}.

(** Two training batches with losses 1.0 and 3.0. *)
Definition pair_data : dataset (batch float) :=
  {| classes := ["a"; "b"]%string;
     traLoader := [two_rows 1%float; two_rows 3%float];
     valLoader := [two_rows 2%float];
     tesLoader := [two_rows 0%float] |}.

(** Five training batches with losses 1.0, 3.0, 5.0, 7.0 and 9.0. *)
Definition five_data : dataset (batch float) :=
  {| classes := ["a"; "b"]%string;
     traLoader := [two_rows 1%float; two_rows 3%float; two_rows 5%float;
                   two_rows 7%float; two_rows 9%float];
     valLoader := [two_rows 2%float];
     tesLoader := [two_rows 0%float] |}.

(** No training batch at all. *)
Definition no_train_data : dataset (batch float) :=
  {| classes := ["a"; "b"]%string;
     traLoader := [];
     valLoader := [two_rows 2%float];
     tesLoader := [two_rows 0%float] |}.

Definition default_args : namespace :=
  {| arg_model := Str "squeezenet1_1"; arg_fl := Bool true;
     arg_fullfinetune := Bool true |}.

(** The default [lr=0.001] of [train]. *)
Definition default_lr : float := fdiv (of_Z 1) (of_Z 1000).

(** The local variables of [train] on [pair_data] with [iteration=2], after
    one and after two epochs. *)
Definition pair_after_one : locals float nat (batch float) (option float) :=
  Eval vm_compute in
    match train_epochs pair_data default_args "squeezenet1_1" 1 2 default_lr with
    | Ok st => st
    | Raise _ => initial_locals pair_data default_args "squeezenet1_1" default_lr
    end.

Definition pair_after_two : locals float nat (batch float) (option float) :=
  Eval vm_compute in
    match train_epochs pair_data default_args "squeezenet1_1" 2 2 default_lr with
    | Ok st => st
    | Raise _ => initial_locals pair_data default_args "squeezenet1_1" default_lr
    end.

End Scripted.

#[export] Existing Instance Scripted.torch.

(** ** Reading a trace *)

(** The events the batch loop produces. *)
Definition is_batch_event {F batch : Type} (e : event F batch) : bool :=
  match e with
  | Forward _ | OptStep _ _ | LogLoss _ => true
  | _ => false
  end.

Definition is_log_loss {F batch : Type} (e : event F batch) : bool :=
  match e with
  | LogLoss _ => true
  | _ => false
  end.

Definition is_sched_step {F batch : Type} (e : event F batch) : bool :=
  match e with
  | SchedStep _ => true
  | _ => false
  end.

(** The losses of the optimizer steps of a trace, in order. *)
Definition step_losses {F batch : Type} (tr : list (event F batch)) : list F :=
  flat_map (fun e => match e with OptStep _ l => [l] | _ => [] end) tr.

(** What the batch loop records from the losses of batches [i], [i+1], ...:
    at the last batch of each group of [iteration], that batch's loss alone
    (added to the [0.0] the accumulator was reset to), over [iteration]. *)
Fixpoint last_of_each_group {F : Type} `{Scalar F}
    (iteration : Z) (i : nat) (losses : list F) : list F :=
  match losses with
  | [] => []
  | l :: losses' =>
      (if Z.of_nat i mod iteration =? iteration - 1
       then [fdiv (fadd (of_Z 0) l) (of_Z iteration)] else [])
      ++ last_of_each_group iteration (S i) losses'
  end.

(** The true and the predicted classes of all rows a loader yields. *)
Definition loader_labels {F net batch plateau : Type}
    `{Torch F net batch plateau} (loader : list batch) : list Z :=
  flat_map labels loader.

Definition loader_predictions {F net batch plateau : Type}
    `{Torch F net batch plateau} (model : net) (loader : list batch) : list Z :=
  flat_map (fun data =>
              map (predicted model data) (seq 0 (List.length (labels data))))
    loader.

(** The arithmetic mean of a non-empty group of losses: their sum from
    [0.0], divided by their number. *)
Definition group_mean {F : Type} `{Scalar F} (group : list F) : F :=
  fdiv (fold_left fadd group (of_Z 0)) (of_nat (List.length group)).

(** The numbers in column [j] of the rows of a CSV file, top to bottom:
    what reading the file back column by column gives. *)
Definition column {F : Type} (j : nat) (rows : list (list (cell F))) : list F :=
  flat_map (fun row => match nth_error row j with
                       | Some (Num x) => [x]
                       | _ => []
                       end) rows.

Definition is_forward {F batch : Type} (e : event F batch) : bool :=
  match e with
  | Forward _ => true
  | _ => false
  end.

Definition is_opt_step {F batch : Type} (e : event F batch) : bool :=
  match e with
  | OptStep _ _ => true
  | _ => false
  end.

(** How many events of a trace satisfy [p]. *)
Definition count_events {F batch : Type} (p : event F batch -> bool)
    (tr : list (event F batch)) : nat :=
  List.length (filter p tr).

(** The diagonal of a matrix, from row 0 and column [i] on. *)
Fixpoint diagonal_from {F : Type} (d : F) (i : nat) (m : list (list F)) : list F :=
  match m with
  | [] => []
  | row :: m' => nth i row d :: diagonal_from d (S i) m'
  end.

(** numpy's [np.trace(m)]: the sum of the diagonal. *)
Definition matrix_trace {F : Type} `{Scalar F} (m : list (list F)) : F :=
  fold_left fadd (diagonal_from (of_Z 0) 0 m) (of_Z 0).

(** ** Bounds on binary64 results

    A binary64 number is given by its specification ([spec_float]):
    a finite one by a mantissa [m] and an exponent [e], standing for
    [m * 2^e].  The bound [Mb * 2^Eb] is carried through the rounding
    steps of an operation in integers. *)

(** While an intermediate result is shifted to its final exponent, the
    mantissa (plus one, if bits have been shifted out) stays at most
    [Mb * 2^(Eb - e)]. *)
Definition under (Mb Eb : Z) (mrs : shr_record) (e : Z) : Prop :=
  0 <= shr_m mrs /\ e <= Eb /\
  shr_m mrs + (if shr_r mrs || shr_s mrs then 1 else 0) <= Mb * 2 ^ (Eb - e).

(** [x] is [+0.0] or a positive number that is at most [Mb * 2^Eb]. *)
Definition at_most (Mb Eb : Z) (x : spec_float) : Prop :=
  x = S754_zero false \/
  exists m e,
    x = S754_finite false m e /\ e <= Eb /\ Zpos m <= Mb * 2 ^ (Eb - e).

(** ** The report and the matrix, by their definitions

    The entries of a classification report and of a confusion matrix as
    they are defined, counted directly on the test samples: a sample is
    the pair of its true and its predicted class. *)
Section ByDefinition.
Context {F : Type} `{Scalar F}.

(** How many samples satisfy [p]. *)
Definition how_many (p : Z * Z -> bool) (samples : list (Z * Z)) : nat :=
  List.length (filter p samples).

(** Samples of class [a] that are predicted as [a]. *)
Definition true_positives (a : Z) (samples : list (Z * Z)) : nat :=
  how_many (fun s => Z.eqb (fst s) a && Z.eqb (snd s) a) samples.

(** Samples of another class that are predicted as [a]. *)
Definition false_positives (a : Z) (samples : list (Z * Z)) : nat :=
  how_many (fun s => negb (Z.eqb (fst s) a) && Z.eqb (snd s) a) samples.

(** Samples of class [a] that are predicted as another class. *)
Definition false_negatives (a : Z) (samples : list (Z * Z)) : nat :=
  how_many (fun s => Z.eqb (fst s) a && negb (Z.eqb (snd s) a)) samples.

(** The report line of class [a]: precision [tp / (tp + fp)], recall
    [tp / (tp + fn)] (each 0 when nothing is counted below the line), their
    harmonic mean F1 (0 without a true positive), and the support
    [tp + fn]. *)
Definition expected_row (a : Z) (name : string) (samples : list (Z * Z))
  : report_row F :=
  let tp := true_positives a samples in
  let fp := false_positives a samples in
  let fn := false_negatives a samples in
  let p := if Nat.eqb (tp + fp) 0 then of_Z 0
           else fdiv (of_nat tp) (of_nat (tp + fp)) in
  let r := if Nat.eqb (tp + fn) 0 then of_Z 0
           else fdiv (of_nat tp) (of_nat (tp + fn)) in
  {| class_name := name;
     precision := p;
     recall := r;
     f1_score := if Nat.eqb tp 0 then of_Z 0
                 else fdiv (fmul (of_Z 2) (fmul p r)) (fadd p r);
     support := tp + fn |}.

(** The cell of true class [a] and predicted class [b] of the matrix
    normalised over all cells: the share of such samples among all. *)
Definition expected_cell (a b : Z) (samples : list (Z * Z)) : F :=
  fdiv (of_nat (how_many (fun s => Z.eqb (fst s) a && Z.eqb (snd s) b) samples))
    (of_nat (List.length samples)).

End ByDefinition.

(** * Properties *)

Unset Implicit Arguments.

(** Right-nest every concatenation of the goal, so that two spellings of
    one event sequence become syntactically equal. *)
Ltac flatten_app :=
  cbn [begin_epoch trace optimizer_lr];
  repeat (progress (rewrite <- ?app_assoc; cbn [app])).

(** ** Results *)

Lemma bind_Ok_inv {A B : Type} (c : result A) (k : A -> result B) (b : B) :
  bind c k = Ok b -> exists a, c = Ok a /\ k a = Ok b.
Proof.
  destruct c as [a | e]; simpl; intros Hk.
  - exists a. split; [reflexivity | exact Hk].
  - discriminate Hk.
Qed.

(** ** Index arithmetic of the batch loop *)

(** Processing batch [i] completes one more group of [iteration] batches
    exactly when [i % iteration == iteration - 1]. *)
Lemma div_succ_group (i iteration : Z) :
  0 <= i -> 0 < iteration ->
  (i + 1) / iteration =
  i / iteration + (if i mod iteration =? iteration - 1 then 1 else 0).
Proof.
  intros Hi Hit.
  pose proof (Z.div_mod i iteration ltac:(lia)) as Hdm.
  pose proof (Z.mod_pos_bound i iteration Hit) as Hb.
  destruct (Z.eqb_spec (i mod iteration) (iteration - 1)) as [He | Hne].
  - symmetry. apply (Z.div_unique (i + 1) iteration (i / iteration + 1) 0); lia.
  - rewrite Z.add_0_r. symmetry.
    apply (Z.div_unique (i + 1) iteration (i / iteration) (i mod iteration + 1)); lia.
Qed.

(** ** The batch loop *)
Section BatchLoop.
Context {F net batch plateau : Type} `{Scalar F} `{Torch F net batch plateau}.

#[local] Abbreviation locals := (locals F net batch plateau).

(** What one pass of the loop body does to the local variables. *)
Lemma train_batch_inv kind iteration i data (st st' : locals) :
  train_batch kind iteration i data st = Ok st' ->
  let l := criterion kind (model st) data in
  let avg := fdiv (fadd (running_loss st) l) (of_Z iteration) in
  let group_end := Z.of_nat i mod iteration =? iteration - 1 in
  iteration <> 0 /\
  model st' = optimize kind (model st) (optimizer_lr st) data /\
  optimizer_lr st' = optimizer_lr st /\
  scheduler st' = scheduler st /\
  tra_acc_list st' = tra_acc_list st /\
  val_acc_list st' = val_acc_list st /\
  lr_list st' = lr_list st /\
  running_loss st' = of_Z 0 /\
  loss st' = Some l /\
  loss_list st' = loss_list st ++ (if group_end then [avg] else []) /\
  trace st' = trace st ++ [Forward data; OptStep (optimizer_lr st) l]
                       ++ (if group_end then [LogLoss avg] else []).
Proof.
  unfold train_batch. destruct (Z.eqb_spec iteration 0) as [-> | Hne].
  - discriminate.
  - intros Heq. injection Heq as <-. simpl.
    destruct (Z.of_nat i mod iteration =? iteration - 1);
      rewrite ?app_nil_r, <- ?app_assoc; simpl; repeat split; auto.
Qed.

Lemma train_batch_total kind iteration i data (st : locals) :
  iteration <> 0 -> exists st', train_batch kind iteration i data st = Ok st'.
Proof.
  intros Hne. unfold train_batch.
  destruct (Z.eqb_spec iteration 0) as [He | _]; [contradiction | eauto].
Qed.

Lemma batch_loop_total kind iteration loader : forall i (st : locals),
  iteration <> 0 -> exists st', batch_loop kind iteration i loader st = Ok st'.
Proof.
  induction loader as [| data loader IH]; intros i st Hne; simpl.
  - eauto.
  - destruct (train_batch_total kind iteration i data st Hne) as [st1 ->]. simpl.
    apply IH, Hne.
Qed.

Lemma batch_loop_app kind iteration l1 : forall l2 i (st : locals),
  batch_loop kind iteration i (l1 ++ l2) st =
  (st1 <- batch_loop kind iteration i l1 st ;;
   batch_loop kind iteration (i + List.length l1) l2 st1).
Proof.
  induction l1 as [| data l1 IH]; intros l2 i st; simpl.
  - rewrite Nat.add_0_r. reflexivity.
  - destruct (train_batch kind iteration i data st) as [st1 | e]; simpl.
    + rewrite IH. replace (S i + List.length l1)%nat with (i + S (List.length l1))%nat by lia.
      reflexivity.
    + reflexivity.
Qed.

(** The loop leaves the optimizer's rate, the scheduler and the three
    per-epoch lists alone. *)
Lemma batch_loop_frame kind iteration loader : forall i (st st' : locals),
  batch_loop kind iteration i loader st = Ok st' ->
  optimizer_lr st' = optimizer_lr st /\
  scheduler st' = scheduler st /\
  tra_acc_list st' = tra_acc_list st /\
  val_acc_list st' = val_acc_list st /\
  lr_list st' = lr_list st.
Proof.
  induction loader as [| data loader IH]; intros i st st' Hrun; simpl in Hrun.
  - injection Hrun as <-. auto.
  - apply bind_Ok_inv in Hrun as (st1 & H1 & H2).
    apply train_batch_inv in H1. cbv zeta in H1.
    destruct H1 as (_ & _ & Hlr & Hs & Ht & Hv & Hl & _).
    apply IH in H2 as (Hlr' & Hs' & Ht' & Hv' & Hl').
    repeat split; congruence.
Qed.

(** An empty loader binds nothing: the state is returned as it is. *)
Lemma batch_loop_nil kind iteration i (st : locals) :
  batch_loop kind iteration i [] st = Ok st.
Proof. reflexivity. Qed.

(** The number of entries the loop appends to [loss_list]. *)
Lemma batch_loop_loss_count kind iteration loader : forall i (st st' : locals),
  0 < iteration ->
  batch_loop kind iteration i loader st = Ok st' ->
  Z.of_nat (List.length (loss_list st')) =
  Z.of_nat (List.length (loss_list st))
  + Z.of_nat (i + List.length loader) / iteration - Z.of_nat i / iteration.
Proof.
  induction loader as [| data loader IH]; intros i st st' Hit Hrun; simpl in Hrun.
  - injection Hrun as <-. rewrite Nat.add_0_r. lia.
  - apply bind_Ok_inv in Hrun as (st1 & H1 & H2).
    apply train_batch_inv in H1. cbv zeta in H1.
    destruct H1 as (_ & _ & _ & _ & _ & _ & _ & _ & _ & Hll & _).
    apply (IH _ _ _ Hit) in H2. rewrite H2, Hll, length_app.
    simpl List.length.
    replace (Z.of_nat (S i + List.length loader))
      with (Z.of_nat (i + S (List.length loader))) by (f_equal; lia).
    replace (Z.of_nat (S i)) with (Z.of_nat i + 1) by lia.
    rewrite (div_succ_group (Z.of_nat i) iteration) by lia.
    destruct (Z.of_nat i mod iteration =? iteration - 1); simpl List.length; lia.
Qed.

(** The events of the loop: forward calls, optimizer steps at the rate the
    optimizer had on entry, and loss records. *)
Lemma batch_loop_events kind iteration loader : forall i (st st' : locals),
  batch_loop kind iteration i loader st = Ok st' ->
  exists ev,
    trace st' = trace st ++ ev /\
    Forall (fun e => is_batch_event e = true) ev /\
    (forall lr l, In (OptStep lr l) ev -> lr = optimizer_lr st) /\
    List.length (step_losses ev) = List.length loader.
Proof.
  induction loader as [| data loader IH]; intros i st st' Hrun; simpl in Hrun.
  - injection Hrun as <-. exists []. rewrite app_nil_r. simpl.
    repeat split; auto. intros _ _ [].
  - apply bind_Ok_inv in Hrun as (st1 & H1 & H2).
    apply train_batch_inv in H1. cbv zeta in H1.
    destruct H1 as (_ & _ & Hlr & _ & _ & _ & _ & _ & _ & _ & Htr).
    apply IH in H2 as (ev & Hev & Hall & Hrate & Hlen).
    eexists. split; [rewrite Hev, Htr, <- !app_assoc; reflexivity |].
    split; [| split].
    + repeat (apply Forall_app; split); auto.
      destruct (Z.of_nat i mod iteration =? iteration - 1); repeat constructor.
    + intros lr l Hin. rewrite !in_app_iff in Hin.
      destruct Hin as [Hin | [Hin | Hin]].
      * simpl in Hin. destruct Hin as [Hin | [Hin | []]]; congruence.
      * destruct (Z.of_nat i mod iteration =? iteration - 1); simpl in Hin;
          [destruct Hin as [Hin | []]; discriminate | contradiction].
      * rewrite <- Hlr. eapply Hrate, Hin.
    + unfold step_losses in *. rewrite !flat_map_app, !length_app, Hlen.
      destruct (Z.of_nat i mod iteration =? iteration - 1); reflexivity.
Qed.

(** After a non-empty loader, [loss] is bound to the loss of its last batch
    (computed by the network as the earlier batches left it), and the
    optimizer step on that batch is the last one in the trace. *)
Lemma batch_loop_last kind iteration loader data i (st st' : locals) :
  batch_loop kind iteration i (loader ++ [data]) st = Ok st' ->
  exists st1 ev1 ev2,
    let l := criterion kind (model st1) data in
    batch_loop kind iteration i loader st = Ok st1 /\
    trace st' = trace st ++ ev1 ++ [Forward data; OptStep (optimizer_lr st) l] ++ ev2 /\
    loss st' = Some l /\
    Forall (fun e => is_batch_event e = true) ev1 /\
    Forall (fun e => is_log_loss e = true) ev2.
Proof.
  rewrite batch_loop_app. intros Hrun.
  apply bind_Ok_inv in Hrun as (st1 & H1 & H2).
  simpl in H2. apply bind_Ok_inv in H2 as (st2 & H2 & H3).
  injection H3 as <-.
  pose proof (batch_loop_frame _ _ _ _ _ _ H1) as (Hlr & _).
  pose proof (batch_loop_events _ _ _ _ _ _ H1) as (ev1 & Hev1 & Hall & _).
  apply train_batch_inv in H2. cbv zeta in H2.
  destruct H2 as (_ & _ & _ & _ & _ & _ & _ & _ & Hloss & _ & Htr).
  exists st1, ev1. eexists. cbv zeta.
  split; [exact H1 |].
  split; [rewrite Htr, Hev1, Hlr, <- !app_assoc; reflexivity |].
  split; [exact Hloss |]. split; [exact Hall |].
  destruct (Z.of_nat (i + List.length loader) mod iteration =? iteration - 1);
    repeat constructor.
Qed.

(** What the loop records: entered with the accumulator at [0.0], it appends
    for each completed group the loss of the group's last batch alone, over
    [iteration]. *)
Lemma batch_loop_records kind iteration loader : forall i (st st' : locals),
  running_loss st = of_Z 0 ->
  batch_loop kind iteration i loader st = Ok st' ->
  exists ev,
    trace st' = trace st ++ ev /\
    List.length (step_losses ev) = List.length loader /\
    loss_list st' = loss_list st ++ last_of_each_group iteration i (step_losses ev).
Proof.
  induction loader as [| data loader IH]; intros i st st' Hzero Hrun; simpl in Hrun.
  - injection Hrun as <-. exists []. simpl. rewrite !app_nil_r. auto.
  - apply bind_Ok_inv in Hrun as (st1 & H1 & H2).
    apply train_batch_inv in H1. cbv zeta in H1.
    destruct H1 as (_ & _ & _ & _ & _ & _ & _ & Hz & _ & Hll & Htr).
    apply (IH _ _ _ Hz) in H2 as (ev & Hev & Hlen & Hrec).
    eexists. split; [rewrite Hev, Htr, <- !app_assoc; reflexivity |].
    unfold step_losses in *. rewrite !flat_map_app. simpl flat_map at 1.
    assert (Hnone : flat_map
              (fun e : event F batch => match e with OptStep _ l => [l] | _ => [] end)
              (if Z.of_nat i mod iteration =? iteration - 1
               then [LogLoss (fdiv (fadd (running_loss st) (criterion kind (model st) data))
                                (of_Z iteration))]
               else []) = []).
    { destruct (Z.of_nat i mod iteration =? iteration - 1); reflexivity. }
    rewrite Hnone. simpl. split; [congruence |].
    rewrite Hrec, Hll, Hzero, <- app_assoc. reflexivity.
Qed.

End BatchLoop.

(** ** The evaluation functions and one epoch *)
Section Epoch.
Context {F net batch plateau : Type} `{Scalar F} `{Torch F net batch plateau}.

#[local] Abbreviation locals := (locals F net batch plateau).
#[local] Abbreviation event := (event F batch).

(** The shared loop makes one forward call per batch, in loader order, and
    collects the labels and predictions of all rows. *)
Lemma predict_loop_spec (model : net) loader :
  forall y_true y_pred (tr : list event),
  predict_loop model loader y_true y_pred tr =
  (y_true ++ loader_labels loader,
   y_pred ++ loader_predictions model loader,
   tr ++ map Forward loader).
Proof.
  induction loader as [| data loader IH]; intros y_true y_pred tr; simpl.
  - rewrite !app_nil_r. reflexivity.
  - rewrite IH, <- !app_assoc. reflexivity.
Qed.

(** One true and one predicted class per row: the two lists handed to the
    metrics have the same length. *)
Lemma loader_predictions_length (model : net) loader :
  List.length (loader_predictions model loader) =
  List.length (loader_labels loader).
Proof.
  unfold loader_predictions, loader_labels.
  induction loader as [| data loader IH]; simpl.
  - reflexivity.
  - rewrite !length_app, length_map, length_seq, IH. reflexivity.
Qed.

(** The two ways the test evaluation ends: with the report and the matrix
    when at least one label occurs and the occurring labels are as many as
    the class names, with the [ValueError] of [classification_report]
    otherwise. *)
Lemma eval_model_test_cases (model : net) loader names (tr : list event) :
  let y_true := loader_labels loader in
  let y_pred := loader_predictions model loader in
  let cls := unique_labels y_true y_pred in
  (cls <> [] /\ List.length cls = List.length names /\
   eval_model_test model loader names tr =
     Ok (map (fun an => class_row y_true y_pred (fst an) (snd an))
           (combine cls names),
         confusion_matrix_all y_true y_pred,
         tr ++ map Forward loader)) \/
  ((cls = [] \/ List.length cls <> List.length names) /\
   exists msg, eval_model_test model loader names tr = Raise (ValueError msg)).
Proof.
  cbv zeta. unfold eval_model_test. rewrite predict_loop_spec. simpl.
  unfold classification_report.
  set (cls := unique_labels (loader_labels loader)
                (loader_predictions model loader)).
  destruct (Nat.eqb_spec (List.length cls) (List.length names)) as [Hlen | Hneq];
    simpl.
  - destruct (Nat.eqb_spec (List.length names) 0) as [Hzero | Hpos]; simpl.
    + right. split; [| eauto]. left.
      destruct cls; [reflexivity | simpl in Hlen; lia].
    + left. split; [| split; [exact Hlen | reflexivity]].
      intros Hnil. rewrite Hnil in Hlen. simpl in Hlen. lia.
  - right. split; [right; exact Hneq | eauto].
Qed.

Lemma eval_model_train_spec (model : net) loader tra (tr : list event) :
  let acc := fmul (of_Z 100)
               (accuracy_score (loader_labels loader)
                  (loader_predictions model loader)) in
  eval_model_train model loader tra tr =
  (tra ++ [acc], tr ++ map Forward loader ++ [LogTrainAcc acc]).
Proof.
  unfold eval_model_train. rewrite predict_loop_spec. simpl.
  rewrite <- app_assoc. reflexivity.
Qed.

Lemma eval_model_valid_spec (model : net) loader val (tr : list event) :
  let acc := fmul (of_Z 100)
               (accuracy_score (loader_labels loader)
                  (loader_predictions model loader)) in
  eval_model_valid model loader val tr =
  (val ++ [acc], tr ++ map Forward loader ++ [LogValidAcc acc]).
Proof.
  unfold eval_model_valid. rewrite predict_loop_spec. simpl.
  rewrite <- app_assoc. reflexivity.
Qed.

(** A completed epoch, taken apart. *)
Lemma train_epoch_inv ds kind iteration (st st' : locals) :
  train_epoch ds kind iteration st = Ok st' ->
  exists st2 l,
    batch_loop kind iteration 0 (traLoader ds) (begin_epoch st) = Ok st2 /\
    loss st2 = Some l /\
    let acc_t := fmul (of_Z 100)
                   (accuracy_score (loader_labels (traLoader ds))
                      (loader_predictions (model st2) (traLoader ds))) in
    let acc_v := fmul (of_Z 100)
                   (accuracy_score (loader_labels (valLoader ds))
                      (loader_predictions (model st2) (valLoader ds))) in
    model st' = model st2 /\
    (scheduler st', optimizer_lr st') =
      scheduler_step (scheduler st2) l (optimizer_lr st2) /\
    tra_acc_list st' = tra_acc_list st2 ++ [acc_t] /\
    val_acc_list st' = val_acc_list st2 ++ [acc_v] /\
    loss_list st' = loss_list st2 /\
    lr_list st' = lr_list st2 /\
    loss st' = Some l /\
    trace st' = trace st2 ++ map Forward (traLoader ds) ++ [LogTrainAcc acc_t]
                          ++ map Forward (valLoader ds)
                          ++ [LogValidAcc acc_v; SchedStep l].
Proof.
  unfold train_epoch. cbv zeta. intros Hrun.
  apply bind_Ok_inv in Hrun as (st2 & Hloop & Hrest).
  rewrite eval_model_train_spec, eval_model_valid_spec in Hrest. cbv zeta in Hrest.
  destruct (loss st2) as [l |] eqn:Hloss; [| discriminate].
  destruct (scheduler_step (scheduler st2) l (optimizer_lr st2)) as [sched' lr'] eqn:Hs.
  injection Hrest as <-. exists st2, l. simpl.
  rewrite <- !app_assoc. simpl. repeat split; auto.
Qed.

(** An epoch over a non-empty training loader completes, unless
    [iteration] is zero. *)
Lemma train_epoch_total ds kind iteration (st : locals) :
  iteration <> 0 -> traLoader ds <> [] ->
  exists st', train_epoch ds kind iteration st = Ok st'.
Proof.
  intros Hit Hne. unfold train_epoch. cbv zeta.
  destruct (batch_loop_total kind iteration (traLoader ds) 0%nat (begin_epoch st) Hit)
    as [st2 Hloop].
  rewrite Hloop. simpl.
  rewrite eval_model_train_spec, eval_model_valid_spec. cbv zeta.
  destruct (exists_last Hne) as (loader & data & Hlast).
  rewrite Hlast in Hloop.
  apply batch_loop_last in Hloop as (st1 & ev1 & ev2 & _ & _ & Hloss & _).
  rewrite Hloss.
  destruct (scheduler_step (scheduler st2) (criterion kind (model st1) data)
              (optimizer_lr st2)).
  eauto.
Qed.

(** Without a batch, an epoch entered with [loss] unbound raises
    [UnboundLocalError] at [scheduler.step(loss.item())]. *)
Lemma train_epoch_unbound ds kind iteration (st : locals) :
  traLoader ds = [] -> loss st = None ->
  train_epoch ds kind iteration st = Raise (UnboundLocalError "loss").
Proof.
  intros Hnil Hloss. unfold train_epoch. cbv zeta. rewrite Hnil.
  cbn [batch_loop bind].
  rewrite eval_model_train_spec, eval_model_valid_spec. cbv zeta.
  cbn [loss begin_epoch]. rewrite Hloss. reflexivity.
Qed.

(** *** The epoch loop *)

Lemma epoch_loop_total ds kind iteration epochs : forall (st : locals),
  iteration <> 0 -> traLoader ds <> [] ->
  exists st', epoch_loop ds kind iteration epochs st = Ok st'.
Proof.
  induction epochs as [| epochs IH]; intros st Hit Hne; simpl.
  - eauto.
  - destruct (train_epoch_total ds kind iteration st Hit Hne) as [st1 ->]. simpl.
    apply IH; assumption.
Qed.

(** Each epoch appends one entry to each of the three per-epoch lists and
    [len(traLoader) // iteration] entries to [loss_list]. *)
Lemma train_epoch_lengths ds kind iteration (st st' : locals) :
  train_epoch ds kind iteration st = Ok st' ->
  List.length (tra_acc_list st') = S (List.length (tra_acc_list st)) /\
  List.length (val_acc_list st') = S (List.length (val_acc_list st)) /\
  List.length (lr_list st') = S (List.length (lr_list st)) /\
  (0 < iteration ->
   Z.of_nat (List.length (loss_list st')) =
   Z.of_nat (List.length (loss_list st))
   + Z.of_nat (List.length (traLoader ds)) / iteration).
Proof.
  intros Hrun. apply train_epoch_inv in Hrun as (st2 & l & Hloop & _ & Hinv).
  cbv zeta in Hinv. destruct Hinv as (_ & _ & Ht & Hv & Hl & Hlr & _).
  pose proof (batch_loop_frame _ _ _ _ _ _ Hloop) as (_ & _ & Ht2 & Hv2 & Hlr2).
  rewrite Ht, Hv, Hl, Hlr, Ht2, Hv2, Hlr2. simpl. rewrite !length_app. simpl.
  repeat split; try lia.
  intros Hit. rewrite (batch_loop_loss_count _ _ _ _ _ _ Hit Hloop). simpl.
  rewrite Z.div_0_l by lia. lia.
Qed.

Lemma epoch_loop_lengths ds kind iteration epochs : forall (st st' : locals),
  epoch_loop ds kind iteration epochs st = Ok st' ->
  List.length (tra_acc_list st') = (List.length (tra_acc_list st) + epochs)%nat /\
  List.length (val_acc_list st') = (List.length (val_acc_list st) + epochs)%nat /\
  List.length (lr_list st') = (List.length (lr_list st) + epochs)%nat /\
  (0 < iteration ->
   Z.of_nat (List.length (loss_list st')) =
   Z.of_nat (List.length (loss_list st))
   + Z.of_nat epochs * (Z.of_nat (List.length (traLoader ds)) / iteration)).
Proof.
  induction epochs as [| epochs IH]; intros st st' Hrun; simpl in Hrun.
  - injection Hrun as <-. repeat split; try lia.
  - apply bind_Ok_inv in Hrun as (st1 & H1 & H2).
    apply train_epoch_lengths in H1 as (Ht & Hv & Hlr & Hl).
    apply IH in H2 as (Ht' & Hv' & Hlr' & Hl').
    repeat split; try lia.
Qed.

End Epoch.

(** ** Saving the history *)
Section Saving.
Context {F net batch plateau : Type} `{Scalar F} `{Torch F net batch plateau}.

#[local] Abbreviation locals := (locals F net batch plateau).

Lemma write_loss_rows_length (losses : list F) range : forall rows,
  write_loss_rows losses range = Ok rows ->
  List.length rows = List.length range.
Proof.
  induction range as [| i range IH]; intros rows Hw; simpl in Hw.
  - injection Hw as <-. reflexivity.
  - apply bind_Ok_inv in Hw as (x & _ & Hw).
    apply bind_Ok_inv in Hw as (rows' & Hrows & Hw).
    injection Hw as <-. simpl. f_equal. apply IH, Hrows.
Qed.

Lemma write_acc_rows_length (tra val lrs : list F) range : forall rows,
  write_acc_rows tra val lrs range = Ok rows ->
  List.length rows = List.length range.
Proof.
  induction range as [| i range IH]; intros rows Hw; simpl in Hw.
  - injection Hw as <-. reflexivity.
  - apply bind_Ok_inv in Hw as (a & _ & Hw).
    apply bind_Ok_inv in Hw as (v & _ & Hw).
    apply bind_Ok_inv in Hw as (r & _ & Hw).
    apply bind_Ok_inv in Hw as (rows' & Hrows & Hw).
    injection Hw as <-. simpl. f_equal. apply IH, Hrows.
Qed.

Lemma getitem_total (l : list F) i :
  (i < List.length l)%nat -> exists x, getitem l i = Ok x.
Proof.
  intros Hi. unfold getitem.
  destruct (nth_error l i) as [x |] eqn:Hn; [eauto |].
  apply nth_error_None in Hn. lia.
Qed.

Lemma write_loss_rows_total (losses : list F) range :
  Forall (fun i => (i < List.length losses)%nat) range ->
  exists rows, write_loss_rows losses range = Ok rows.
Proof.
  induction 1 as [| i range Hi _ IH]; simpl.
  - eauto.
  - destruct (getitem_total losses i Hi) as [x ->].
    destruct IH as [rows ->]. simpl. eauto.
Qed.

Lemma write_acc_rows_total (tra val lrs : list F) range :
  Forall (fun i => (i < List.length tra)%nat) range ->
  List.length val = List.length tra ->
  List.length lrs = List.length tra ->
  exists rows, write_acc_rows tra val lrs range = Ok rows.
Proof.
  intros Hall Hv Hl. induction Hall as [| i range Hi _ IH]; simpl.
  - eauto.
  - destruct (getitem_total tra i Hi) as [a ->].
    destruct (getitem_total val i ltac:(lia)) as [v ->].
    destruct (getitem_total lrs i ltac:(lia)) as [r ->].
    destruct IH as [rows ->]. simpl. eauto.
Qed.

Lemma range_in_bounds n : Forall (fun i => (i < n)%nat) (seq 0 n).
Proof. apply Forall_forall. intros i Hi. apply in_seq in Hi. lia. Qed.

(** Both CSV files get one data row per entry of the list they are
    written from. *)
Lemma save_history_rows args (st : locals) report cm files :
  save_history args st report cm = Ok files ->
  List.length (data_rows (loss_csv files)) = List.length (loss_list st) /\
  List.length (data_rows (acc_csv files)) = List.length (tra_acc_list st).
Proof.
  unfold save_history. intros Hs.
  apply bind_Ok_inv in Hs as (acc_rows & Hacc & Hs).
  apply bind_Ok_inv in Hs as (loss_rows & Hloss & Hs).
  injection Hs as <-. simpl.
  apply write_loss_rows_length in Hloss. apply write_acc_rows_length in Hacc.
  rewrite length_seq in Hloss, Hacc. auto.
Qed.

(** With the three per-epoch lists of equal length, no index is out of
    range. *)
Lemma save_history_total args (st : locals) report cm :
  List.length (val_acc_list st) = List.length (tra_acc_list st) ->
  List.length (lr_list st) = List.length (tra_acc_list st) ->
  exists files, save_history args st report cm = Ok files.
Proof.
  intros Hv Hl. unfold save_history.
  destruct (write_acc_rows_total (tra_acc_list st) (val_acc_list st) (lr_list st)
              (seq 0 (List.length (tra_acc_list st)))
              (range_in_bounds _) Hv Hl) as [acc_rows ->].
  destruct (write_loss_rows_total (loss_list st)
              (seq 0 (List.length (loss_list st))) (range_in_bounds _))
    as [loss_rows ->].
  simpl. eauto.
Qed.

(** A completed run of [train], taken apart. *)
Lemma train_inv ds args backbone_ver epoch_num iteration lr (st : locals) files :
  train ds args backbone_ver epoch_num iteration lr = Ok (st, files) ->
  exists st0 report cm tr,
    train_epochs ds args backbone_ver epoch_num iteration lr = Ok st0 /\
    eval_model_test (model st0) (tesLoader ds) (classes ds) (trace st0)
      = Ok (report, cm, tr) /\
    save_history args st0 report cm = Ok files /\
    st = with_trace st0 tr.
Proof.
  unfold train. intros Hrun.
  apply bind_Ok_inv in Hrun as (st0 & Hloop & Hrun).
  apply bind_Ok_inv in Hrun as ([[report cm] tr] & Htest & Hrun).
  apply bind_Ok_inv in Hrun as (files' & Hsave & Hrun).
  injection Hrun as <- <-. exists st0, report, cm, tr. auto.
Qed.

End Saving.

(** ** The bookkeeping of [train] *)
Section Bookkeeping.
Context {F net batch plateau : Type} `{Scalar F} `{Torch F net batch plateau}.

#[local] Abbreviation locals := (locals F net batch plateau).
#[local] Abbreviation event := (event F batch).

Lemma train_epochs_lengths ds args backbone_ver epoch_num iteration lr (st : locals) :
  0 <= epoch_num ->
  train_epochs ds args backbone_ver epoch_num iteration lr = Ok st ->
  Z.of_nat (List.length (tra_acc_list st)) = epoch_num /\
  Z.of_nat (List.length (val_acc_list st)) = epoch_num /\
  Z.of_nat (List.length (lr_list st)) = epoch_num /\
  (0 < iteration ->
   Z.of_nat (List.length (loss_list st)) =
   epoch_num * (Z.of_nat (List.length (traLoader ds)) / iteration)).
Proof.
  intros Hn Hrun. unfold train_epochs in Hrun.
  apply epoch_loop_lengths in Hrun as (Ht & Hv & Hl & Hloss). simpl in *.
  repeat split; try lia.
  intros Hit. rewrite (Hloss Hit), Z2Nat.id by lia. lia.
Qed.

(** C2: after a completed run of [train] with [epoch_num] epochs over a
    training loader of [len(traLoader)] batches, [loss.csv] has
    [epoch_num * floor(len(traLoader) / iteration)] data rows, one per
    entry of [loss_list]. *)
Theorem loss_csv_row_count ds args backbone_ver epoch_num iteration lr
    (st : locals) files :
  0 <= epoch_num -> 0 < iteration ->
  train ds args backbone_ver epoch_num iteration lr = Ok (st, files) ->
  List.length (data_rows (loss_csv files)) = List.length (loss_list st) /\
  Z.of_nat (List.length (data_rows (loss_csv files))) =
  epoch_num * (Z.of_nat (List.length (traLoader ds)) / iteration).
Proof.
  intros Hn Hit Hrun.
  apply train_inv in Hrun as (st0 & report & cm & tr & Hloop & _ & Hsave & ->).
  apply save_history_rows in Hsave as (Hrows & _).
  apply (train_epochs_lengths _ _ _ _ _ _ _ Hn) in Hloop as (_ & _ & _ & Hloss).
  simpl. rewrite Hrows. split; [reflexivity | exact (Hloss Hit)].
Qed.

(** C5: after a completed run of [train] with [epoch_num] epochs the three
    tracking lists have length [epoch_num]; every epoch appends exactly one
    element to each of them, so they stay aligned by epoch index (and
    [acc.csv] gets one data row per epoch). *)
Theorem tracking_lists_aligned ds args backbone_ver epoch_num iteration lr
    (st : locals) files :
  0 <= epoch_num ->
  train ds args backbone_ver epoch_num iteration lr = Ok (st, files) ->
  (Z.of_nat (List.length (tra_acc_list st)) = epoch_num /\
   Z.of_nat (List.length (val_acc_list st)) = epoch_num /\
   Z.of_nat (List.length (lr_list st)) = epoch_num /\
   Z.of_nat (List.length (data_rows (acc_csv files))) = epoch_num) /\
  (forall st1 st2 : locals,
     train_epoch ds (select_criterion args) iteration st1 = Ok st2 ->
     exists acc_t acc_v,
       tra_acc_list st2 = tra_acc_list st1 ++ [acc_t] /\
       val_acc_list st2 = val_acc_list st1 ++ [acc_v] /\
       lr_list st2 = lr_list st1 ++ [optimizer_lr st1]).
Proof.
  intros Hn Hrun. split.
  - apply train_inv in Hrun as (st0 & report & cm & tr & Hloop & _ & Hsave & ->).
    apply save_history_rows in Hsave as (_ & Hrows).
    apply (train_epochs_lengths _ _ _ _ _ _ _ Hn) in Hloop as (Ht & Hv & Hl & _).
    simpl. rewrite Hrows. auto.
  - intros st1 st2 Hepoch.
    apply train_epoch_inv in Hepoch as (st' & l & Hloop & _ & Hinv).
    cbv zeta in Hinv. destruct Hinv as (_ & _ & Ht & Hv & _ & Hl & _).
    apply batch_loop_frame in Hloop as (_ & _ & Ht' & Hv' & Hl').
    do 2 eexists. rewrite Ht, Hv, Hl, Ht', Hv', Hl'. simpl. auto.
Qed.

(** C10: when the training loader yields no batch, the first epoch raises
    [UnboundLocalError] (a [NameError]) for [loss] at
    [scheduler.step(loss.item())]; a run of at least one epoch completes
    its epoch loop only if the training loader is non-empty, and with a
    non-empty loader (and a non-zero [iteration]) it does complete it. *)
Theorem empty_loader_raises_NameError ds args backbone_ver epoch_num iteration lr :
  0 < epoch_num ->
  (traLoader ds = [] ->
   train ds args backbone_ver epoch_num iteration lr
     = Raise (UnboundLocalError "loss") /\
   is_NameError (UnboundLocalError "loss") = true) /\
  (forall st : locals,
     train_epochs ds args backbone_ver epoch_num iteration lr = Ok st ->
     traLoader ds <> []) /\
  (traLoader ds <> [] -> iteration <> 0 ->
   exists st : locals,
     train_epochs ds args backbone_ver epoch_num iteration lr = Ok st).
Proof.
  intros Hn.
  assert (Hraise : traLoader ds = [] ->
            train_epochs ds args backbone_ver epoch_num iteration lr
              = Raise (UnboundLocalError "loss")).
  { intros Hnil. unfold train_epochs.
    destruct (Z.to_nat epoch_num) as [| epochs] eqn:He; [lia |].
    simpl. rewrite train_epoch_unbound by (assumption || reflexivity).
    reflexivity. }
  split; [| split].
  - intros Hnil. unfold train. rewrite (Hraise Hnil). split; reflexivity.
  - intros st Hrun Hnil. rewrite (Hraise Hnil) in Hrun. discriminate.
  - intros Hne Hit. apply epoch_loop_total; assumption.
Qed.

End Bookkeeping.

(** ** The order of actions within an epoch *)
Section EpochOrder.
Context {F net batch plateau : Type} `{Scalar F} `{Torch F net batch plateau}.

#[local] Abbreviation locals := (locals F net batch plateau).
#[local] Abbreviation event := (event F batch).

Lemma batch_events_no_sched_step (ev : list event) :
  Forall (fun e => is_batch_event e = true) ev ->
  Forall (fun e => is_sched_step e = false) ev.
Proof.
  apply Forall_impl. intros [ | | | | | | ]; simpl; congruence.
Qed.

Lemma log_loss_no_sched_step (ev : list event) :
  Forall (fun e => is_log_loss e = true) ev ->
  Forall (fun e => is_sched_step e = false) ev.
Proof.
  apply Forall_impl. intros [ | | | | | | ]; simpl; congruence.
Qed.

Lemma forward_no_sched_step (loader : list batch) :
  Forall (fun e : event => is_sched_step e = false) (map Forward loader).
Proof.
  apply Forall_forall. intros e He. apply in_map_iff in He as (d & <- & _).
  reflexivity.
Qed.

Lemma forward_no_opt_step (loader : list batch) lr l :
  ~ In (OptStep lr l : event) (map Forward loader).
Proof.
  intros He. apply in_map_iff in He as (d & Hd & _). discriminate.
Qed.

(** The actions of a completed epoch over a non-empty training loader. *)
Lemma train_epoch_trace ds kind iteration (st st' : locals) :
  traLoader ds <> [] ->
  train_epoch ds kind iteration st = Ok st' ->
  exists loader data st_prev ev1 ev2 acc_t acc_v ev,
    let l := criterion kind (model st_prev) data in
    traLoader ds = loader ++ [data] /\
    batch_loop kind iteration 0 loader (begin_epoch st) = Ok st_prev /\
    trace st' = trace st ++ ev ++ [SchedStep l] /\
    Forall (fun e => is_sched_step e = false) ev /\
    ev = [ReadLr (optimizer_lr st)]
         ++ ev1 ++ [Forward data; OptStep (optimizer_lr st) l] ++ ev2
         ++ map Forward (traLoader ds) ++ [LogTrainAcc acc_t]
         ++ map Forward (valLoader ds) ++ [LogValidAcc acc_v] /\
    Forall (fun e => is_batch_event e = true) ev1 /\
    Forall (fun e => is_log_loss e = true) ev2 /\
    (scheduler st', optimizer_lr st') =
      scheduler_step (scheduler st) l (optimizer_lr st) /\
    loss st' = Some l.
Proof.
  intros Hne Hrun.
  apply train_epoch_inv in Hrun as (st2 & l & Hloop & Hloss & Hinv).
  cbv zeta in Hinv. destruct Hinv as (_ & Hsched & _ & _ & _ & _ & Hloss' & Htr).
  pose proof (batch_loop_frame _ _ _ _ _ _ Hloop) as (Hrate & Hs & _).
  simpl in Hrate, Hs. rewrite Hrate, Hs in Hsched.
  destruct (exists_last Hne) as (loader & data & Hlast).
  rewrite Hlast in Hloop.
  apply batch_loop_last in Hloop
    as (st_prev & ev1 & ev2 & Hprev & Hev & Hl & Hall1 & Hall2).
  rewrite Hl in Hloss. injection Hloss as <-.
  match type of Htr with context [LogTrainAcc ?a] => set (acc_t := a) in Htr end.
  match type of Htr with context [LogValidAcc ?a] => set (acc_v := a) in Htr end.
  exists loader, data, st_prev, ev1, ev2, acc_t, acc_v.
  exists ([ReadLr (optimizer_lr st)]
          ++ ev1 ++ [Forward data;
                     OptStep (optimizer_lr st) (criterion kind (model st_prev) data)]
          ++ ev2 ++ map Forward (traLoader ds) ++ [LogTrainAcc acc_t]
          ++ map Forward (valLoader ds) ++ [LogValidAcc acc_v]).
  cbv zeta. split; [exact Hlast |]. split; [exact Hprev |].
  split.
  { rewrite Htr, Hev. flatten_app. reflexivity. }
  split.
  { repeat (apply Forall_app; split);
      auto using batch_events_no_sched_step, log_loss_no_sched_step,
                 forward_no_sched_step;
      repeat constructor. }
  split; [reflexivity |]. repeat split; assumption.
Qed.

(** Any epoch that a run of [train] gets to complete has a non-empty
    training loader. *)
Lemma running_epoch_has_batches ds args backbone_ver iteration lr epoch
    (st st' : locals) :
  train_epochs ds args backbone_ver (Z.of_nat epoch) iteration lr = Ok st ->
  train_epoch ds (select_criterion args) iteration st = Ok st' ->
  traLoader ds <> [].
Proof.
  intros Hpast Hnow Hnil. unfold train_epochs in Hpast.
  rewrite Nat2Z.id in Hpast. destruct epoch as [| epoch]; simpl in Hpast.
  - injection Hpast as <-.
    rewrite train_epoch_unbound in Hnow by (assumption || reflexivity).
    discriminate.
  - rewrite train_epoch_unbound in Hpast by (assumption || reflexivity).
    discriminate.
Qed.

(** C3: in every epoch of [train] (the epoch entered after [epoch] completed
    ones) the scheduler is stepped exactly once, as the epoch's last action,
    after the training and the validation accuracy have been evaluated and
    logged; the value it is given is the loss of the final mini-batch of the
    training loader, as the batch loop computed it (with the network as
    the earlier batches of the epoch left it), not an average; and the
    scheduler state and the learning rate that the epoch leaves behind are
    what this one call [scheduler.step(l)] returns for the scheduler and
    the rate the epoch was entered with. *)
Theorem scheduler_stepped_once_with_last_batch_loss
    ds args backbone_ver iteration lr epoch (st st' : locals) :
  train_epochs ds args backbone_ver (Z.of_nat epoch) iteration lr = Ok st ->
  train_epoch ds (select_criterion args) iteration st = Ok st' ->
  exists loader data st_prev ev1 ev2 acc_t acc_v ev,
    let l := criterion (select_criterion args) (model st_prev) data in
    traLoader ds = loader ++ [data] /\
    batch_loop (select_criterion args) iteration 0 loader (begin_epoch st)
      = Ok st_prev /\
    trace st' = trace st ++ ev ++ [SchedStep l] /\
    Forall (fun e => is_sched_step e = false) ev /\
    ev = [ReadLr (optimizer_lr st)]
         ++ ev1 ++ [Forward data; OptStep (optimizer_lr st) l] ++ ev2
         ++ map Forward (traLoader ds) ++ [LogTrainAcc acc_t]
         ++ map Forward (valLoader ds) ++ [LogValidAcc acc_v] /\
    Forall (fun e => is_batch_event e = true) ev1 /\
    Forall (fun e => is_log_loss e = true) ev2 /\
    (scheduler st', optimizer_lr st') =
      scheduler_step (scheduler st) l (optimizer_lr st) /\
    loss st' = Some l.
Proof.
  intros Hpast Hnow.
  apply (train_epoch_trace ds (select_criterion args) iteration st st');
    [| exact Hnow].
  eapply running_epoch_has_batches; eassumption.
Qed.

(** C4: in every epoch the optimizer's learning rate is read and appended to
    [lr_list] first, before any batch is processed; every optimizer step of
    the epoch runs at that logged rate; the scheduler is stepped only at the
    end, and what it leaves in the optimizer is the rate of the next epoch,
    not the one logged for this epoch. *)
Theorem logged_rate_is_rate_in_effect ds kind iteration (st st' : locals) :
  train_epoch ds kind iteration st = Ok st' ->
  lr_list st' = lr_list st ++ [optimizer_lr st] /\
  exists ev l,
    trace st' = trace st ++ [ReadLr (optimizer_lr st)] ++ ev ++ [SchedStep l] /\
    Forall (fun e => is_sched_step e = false) ev /\
    List.length (step_losses ev) = List.length (traLoader ds) /\
    (forall lr' l', In (OptStep lr' l') ev -> lr' = optimizer_lr st) /\
    optimizer_lr st' = snd (scheduler_step (scheduler st) l (optimizer_lr st)).
Proof.
  intros Hrun.
  apply train_epoch_inv in Hrun as (st2 & l & Hloop & Hloss & Hinv).
  cbv zeta in Hinv. destruct Hinv as (_ & Hsched & _ & _ & _ & Hlr & _ & Htr).
  pose proof (batch_loop_frame _ _ _ _ _ _ Hloop) as (Hrate & Hs & _ & _ & Hlr2).
  apply batch_loop_events in Hloop as (ev & Hev & Hall & Hrates & Hlen).
  simpl in Hrate, Hs, Hlr2, Hev, Hrates.
  split; [congruence |].
  match type of Htr with context [LogTrainAcc ?a] => set (acc_t := a) in Htr end.
  match type of Htr with context [LogValidAcc ?a] => set (acc_v := a) in Htr end.
  exists (ev ++ map Forward (traLoader ds) ++ [LogTrainAcc acc_t]
             ++ map Forward (valLoader ds) ++ [LogValidAcc acc_v]), l.
  split.
  { rewrite Htr, Hev. flatten_app. reflexivity. }
  split.
  { repeat (apply Forall_app; split);
      auto using batch_events_no_sched_step, forward_no_sched_step;
      repeat constructor. }
  split.
  { unfold step_losses in *. rewrite !flat_map_app, !length_app, Hlen.
    assert (Hfw : forall loader : list batch,
              flat_map (fun e : event => match e with OptStep _ l0 => [l0] | _ => [] end)
                (map Forward loader) = []).
    { induction loader as [| d loader IH]; simpl; auto. }
    rewrite !Hfw. simpl. lia. }
  split.
  { intros lr' l' Hin. rewrite !in_app_iff in Hin.
    destruct Hin as [Hin | [Hin | [Hin | [Hin | Hin]]]].
    - eapply Hrates, Hin.
    - exfalso. eapply forward_no_opt_step, Hin.
    - simpl in Hin. destruct Hin as [Hin | []]. discriminate.
    - exfalso. eapply forward_no_opt_step, Hin.
    - simpl in Hin. destruct Hin as [Hin | []]. discriminate. }
  rewrite <- Hs, <- Hrate, <- Hsched. reflexivity.
Qed.

End EpochOrder.

(** ** The running loss *)
Section RunningLoss.
Context {F net batch plateau : Type} `{Scalar F} `{Torch F net batch plateau}.

#[local] Abbreviation locals := (locals F net batch plateau).

Lemma step_losses_app (ev1 ev2 : list (event F batch)) :
  step_losses (ev1 ++ ev2) = step_losses ev1 ++ step_losses ev2.
Proof. apply flat_map_app. Qed.

Lemma step_losses_forward (loader : list batch) :
  step_losses (F := F) (map Forward loader) = [].
Proof. induction loader as [| d loader IH]; simpl; auto. Qed.

(** [running_loss = 0.0] sits in the loop body after the [if], not inside
    it: the accumulator is cleared after every batch.  So what an epoch
    appends to [loss_list] is, for each completed group of [iteration]
    batches, the loss of the group's last batch alone over [iteration]. *)
Lemma train_epoch_records ds kind iteration (st st' : locals) :
  train_epoch ds kind iteration st = Ok st' ->
  exists ev,
    trace st' = trace st ++ ev /\
    List.length (step_losses ev) = List.length (traLoader ds) /\
    loss_list st' =
      loss_list st ++ last_of_each_group iteration 0 (step_losses ev).
Proof.
  intros Hrun.
  apply train_epoch_inv in Hrun as (st2 & l & Hloop & _ & Hinv).
  cbv zeta in Hinv. destruct Hinv as (_ & _ & _ & _ & Hll & _ & _ & Htr).
  apply batch_loop_records in Hloop as (ev & Hev & Hlen & Hrec); [| reflexivity].
  match type of Htr with context [LogTrainAcc ?a] => set (acc_t := a) in Htr end.
  match type of Htr with context [LogValidAcc ?a] => set (acc_v := a) in Htr end.
  exists ([ReadLr (optimizer_lr st)] ++ ev ++ map Forward (traLoader ds)
          ++ [LogTrainAcc acc_t] ++ map Forward (valLoader ds)
          ++ [LogValidAcc acc_v; SchedStep l]).
  assert (Hlosses :
            step_losses ([ReadLr (optimizer_lr st)] ++ ev ++ map Forward (traLoader ds)
              ++ [LogTrainAcc acc_t] ++ map Forward (valLoader ds)
              ++ [LogValidAcc acc_v; SchedStep l]) = step_losses ev).
  { rewrite !step_losses_app, !step_losses_forward. simpl.
    rewrite app_nil_r. reflexivity. }
  rewrite Hlosses. split; [| split].
  - rewrite Htr, Hev. flatten_app. reflexivity.
  - exact Hlen.
  - rewrite Hll, Hrec. reflexivity.
Qed.

End RunningLoss.

(** C1: [loss_list] does not hold group means.  With [iteration = 2] and
    two batches of loss 1.0 and 3.0 in one epoch, the run records
    [3.0 / 2 = 1.5], the last batch's loss over [iteration], and not the
    mean 2.0 of the group: the accumulator is reset after every batch
    instead of after every recorded group. *)
Theorem running_loss_reset_every_batch :
  exists st files,
    train Scripted.pair_data Scripted.default_args "squeezenet1_1" 1 2
      Scripted.default_lr = Ok (st, files) /\
    step_losses (trace st) = [1%float; 3%float] /\
    loss_list st = [1.5%float] /\
    group_mean [1%float; 3%float] = 2%float /\
    loss_list st <> [group_mean [1%float; 3%float]].
Proof.
  do 2 eexists. split; [vm_compute; reflexivity |].
  split; [vm_compute; reflexivity |].
  split; [vm_compute; reflexivity |].
  split; [vm_compute; reflexivity |].
  intros Heq.
  apply (f_equal (fun l => match l with
                           | [x] => PrimFloat.eqb x 2%float
                           | _ => false
                           end)) in Heq.
  vm_compute in Heq. discriminate.
Qed.

(** ** The metrics *)

(** *** The label set *)

Lemma insert_label_In (x : Z) (l : list Z) (y : Z) :
  In y (insert_label x l) <-> y = x \/ In y l.
Proof.
  induction l as [| z l IH]; simpl.
  - intuition.
  - destruct (Z.ltb_spec x z) as [Hlt | Hge]; simpl; [intuition |].
    destruct (Z.eqb_spec x z) as [-> | Hne]; simpl; [intuition |].
    rewrite IH. intuition.
Qed.

Lemma insert_label_sorted (x : Z) (l : list Z) :
  StronglySorted Z.lt l -> StronglySorted Z.lt (insert_label x l).
Proof.
  induction 1 as [| z l Hs IH Hall]; simpl.
  - repeat constructor.
  - destruct (Z.ltb_spec x z) as [Hlt | Hge].
    + constructor; [constructor; assumption |].
      constructor; [assumption |].
      eapply Forall_impl; [| exact Hall]. intros; lia.
    + destruct (Z.eqb_spec x z) as [-> | Hne]; [constructor; assumption |].
      constructor; [exact IH |].
      apply Forall_forall. intros y Hy. apply insert_label_In in Hy as [-> | Hy].
      * lia.
      * rewrite Forall_forall in Hall. apply Hall, Hy.
Qed.

Lemma unique_labels_sorted (y_true y_pred : list Z) :
  StronglySorted Z.lt (unique_labels y_true y_pred).
Proof.
  unfold unique_labels. induction (y_true ++ y_pred) as [| x l IH]; simpl.
  - constructor.
  - apply insert_label_sorted, IH.
Qed.

Lemma unique_labels_In (y_true y_pred : list Z) (x : Z) :
  In x (unique_labels y_true y_pred) <-> In x (y_true ++ y_pred).
Proof.
  unfold unique_labels. induction (y_true ++ y_pred) as [| z l IH]; simpl.
  - reflexivity.
  - rewrite insert_label_In, IH. intuition.
Qed.

Lemma sorted_NoDup (l : list Z) : StronglySorted Z.lt l -> NoDup l.
Proof.
  induction 1 as [| z l Hs IH Hall]; constructor; [| exact IH].
  intros Hin. rewrite Forall_forall in Hall. specialize (Hall z Hin). lia.
Qed.

Lemma unique_labels_NoDup (y_true y_pred : list Z) :
  NoDup (unique_labels y_true y_pred).
Proof. apply sorted_NoDup, unique_labels_sorted. Qed.

(** *** Counting *)

Lemma list_sum_map_add {A : Type} (f g : A -> nat) (l : list A) :
  list_sum (map (fun x => f x + g x)%nat l) =
  (list_sum (map f l) + list_sum (map g l))%nat.
Proof. induction l as [| x l IH]; simpl; lia. Qed.

Lemma list_sum_map_zero {A : Type} (l : list A) :
  list_sum (map (fun _ => 0%nat) l) = 0%nat.
Proof. induction l as [| x l IH]; simpl; auto. Qed.

(** Over a duplicate-free list that contains [t], exactly one element
    equals [t]. *)
Lemma indicator_sum (t : Z) (l : list Z) :
  NoDup l -> In t l ->
  list_sum (map (fun a => if Z.eqb t a then 1 else 0)%nat l) = 1%nat.
Proof.
  induction 1 as [| z l Hnot Hnd IH]; intros Hin; simpl in *.
  - contradiction.
  - destruct (Z.eqb_spec t z) as [-> | Hne].
    + rewrite (map_ext_in _ (fun _ => 0%nat));
        [rewrite list_sum_map_zero; reflexivity |].
      intros a Ha. destruct (Z.eqb_spec z a) as [-> | _]; [contradiction | reflexivity].
    + destruct Hin as [-> | Hin]; [contradiction |]. apply IH, Hin.
Qed.

Lemma indicator_sum_pairs (t p : Z) (l : list Z) :
  NoDup l -> In t l -> In p l ->
  list_sum
    (map (fun a =>
            list_sum (map (fun b => if Z.eqb t a && Z.eqb p b then 1 else 0)%nat l))
       l) = 1%nat.
Proof.
  intros Hnd Ht Hp.
  rewrite (map_ext _ (fun a => if Z.eqb t a then 1 else 0)%nat).
  - apply indicator_sum; assumption.
  - intros a. destruct (Z.eqb t a); simpl.
    + apply indicator_sum; assumption.
    + apply list_sum_map_zero.
Qed.

(** Every sample falls into exactly one cell: the counts over a
    duplicate-free label list that covers both lists add up to the number
    of samples. *)
Lemma count_pair_total (l : list Z) :
  NoDup l ->
  forall y_true y_pred,
  incl y_true l -> incl y_pred l ->
  List.length y_true = List.length y_pred ->
  list_sum
    (map (fun a => list_sum (map (fun b => count_pair a b y_true y_pred) l)) l)
  = List.length y_true.
Proof.
  intros Hnd. induction y_true as [| t y_true IH]; intros y_pred Ht Hp Hlen.
  - simpl. rewrite (map_ext _ (fun _ => 0%nat)); [apply list_sum_map_zero |].
    intros a. apply list_sum_map_zero.
  - destruct y_pred as [| p y_pred]; [discriminate |]. simpl count_pair.
    rewrite (map_ext _
               (fun a =>
                  list_sum (map (fun b => if Z.eqb t a && Z.eqb p b then 1 else 0) l)
                  + list_sum (map (fun b => count_pair a b y_true y_pred) l))%nat)
      by (intros a; apply list_sum_map_add).
    rewrite list_sum_map_add, indicator_sum_pairs, IH; simpl; auto with datatypes.
    + intros x Hx. apply Ht. right. exact Hx.
    + intros x Hx. apply Hp. right. exact Hx.
Qed.

Lemma confusion_counts_total (y_true y_pred : list Z) :
  List.length y_true = List.length y_pred ->
  counts_total (confusion_counts y_true y_pred) = List.length y_true.
Proof.
  intros Hlen. unfold counts_total, confusion_counts. rewrite map_map.
  apply count_pair_total.
  - apply unique_labels_NoDup.
  - intros x Hx. apply unique_labels_In, in_or_app. left. exact Hx.
  - intros x Hx. apply unique_labels_In, in_or_app. right. exact Hx.
  - exact Hlen.
Qed.

Lemma count_equal_le (y_true y_pred : list Z) :
  (count_equal y_true y_pred <= List.length y_true)%nat.
Proof.
  revert y_pred. induction y_true as [| t y_true IH]; intros [| p y_pred]; simpl;
    try lia.
  specialize (IH y_pred). destruct (Z.eqb t p); lia.
Qed.

(** *** Exact arithmetic *)

#[local] Open Scope Q_scope.

Lemma inject_nat_nonzero (n : nat) :
  (0 < n)%nat -> ~ inject_Z (Z.of_nat n) == 0.
Proof. intros Hn. unfold Qeq. simpl. lia. Qed.

Lemma row_sum_scaled (T : Q) (row : list nat) : forall acc : Q,
  fold_left fadd (map (fun c => fdiv (of_nat c) T) row) acc
  == acc + of_nat (list_sum row) / T.
Proof.
  unfold of_nat. simpl.
  induction row as [| c row IH]; intros acc; simpl.
  - unfold Qdiv. ring.
  - rewrite IH, Nat2Z.inj_add, inject_Z_plus. unfold Qdiv. ring.
Qed.

Lemma matrix_sum_scaled (T : Q) (cm : list (list nat)) : forall acc : Q,
  fold_left (fun acc row => fold_left fadd row acc)
    (map (map (fun c => fdiv (of_nat c) T)) cm) acc
  == acc + of_nat (counts_total cm) / T.
Proof.
  unfold counts_total.
  induction cm as [| row cm IH]; intros acc; simpl.
  - unfold of_nat, Qdiv. simpl. ring.
  - rewrite IH, row_sum_scaled. unfold of_nat. simpl.
    rewrite Nat2Z.inj_add, inject_Z_plus. unfold Qdiv. ring.
Qed.

(** *** The evaluations in exact arithmetic *)
Section ExactMetrics.
Context {net batch plateau : Type} `{Torch Q net batch plateau}.

(** C7: the confusion matrix that [eval_model_test] returns for a test
    loader with at least one row, normalised over all cells, has entries
    that sum to 1 (in exact arithmetic; in floating point up to rounding). *)
Theorem confusion_matrix_sums_to_one (model : net) (loader : list batch)
    (names : list string) (tr tr' : list (event Q batch))
    (report : list (report_row Q)) (cm : list (list Q)) :
  eval_model_test model loader names tr = Ok (report, cm, tr') ->
  loader_labels loader <> [] ->
  matrix_sum cm == 1.
Proof.
  unfold eval_model_test. rewrite predict_loop_spec. simpl.
  intros Hrun Hne.
  apply bind_Ok_inv in Hrun as (rows & _ & Hrun). injection Hrun as _ <- _.
  unfold matrix_sum, confusion_matrix_all.
  rewrite matrix_sum_scaled.
  rewrite confusion_counts_total by (symmetry; apply loader_predictions_length).
  unfold of_nat. simpl. field.
  apply inject_nat_nonzero.
  destruct (loader_labels loader); [contradiction | simpl; lia].
Qed.

End ExactMetrics.

#[local] Close Scope Q_scope.

(** C8, as stated, fails on a loader that yields nothing: the accuracy is
    the float quotient of zero by zero, a NaN, and the NaN that
    [eval_model_train] and [eval_model_valid] append is neither at least 0
    nor at most 100. *)
Lemma accuracy_of_empty_loader_is_nan :
  exists acc : float,
    fst (eval_model_train 0%nat ([] : list (Scripted.batch float)) [] []) = [acc] /\
    fst (eval_model_valid 0%nat ([] : list (Scripted.batch float)) [] []) = [acc] /\
    fleb (of_Z 0) acc = false /\
    fleb acc (of_Z 100) = false /\
    in_range 0 100 acc = false.
Proof.
  exists (fmul (of_Z 100) (fdiv (of_Z 0) (of_Z 0))).
  repeat split; vm_compute; reflexivity.
Qed.

(** ** Binary64 arithmetic *)

(** *** The number of binary digits *)

(** A number of [d] binary digits lies between [2^(d-1)] and [2^d]. *)
Lemma digits2_pos_bounds (p : positive) :
  2 ^ (Zpos (digits2_pos p) - 1) <= Zpos p < 2 ^ Zpos (digits2_pos p).
Proof.
  induction p as [p IH | p IH |]; cbn [digits2_pos].
  - rewrite Pos2Z.inj_succ.
    replace (Z.succ (Zpos (digits2_pos p)) - 1)
      with (Z.succ (Zpos (digits2_pos p) - 1)) by lia.
    rewrite !Z.pow_succ_r by lia. lia.
  - rewrite Pos2Z.inj_succ.
    replace (Z.succ (Zpos (digits2_pos p)) - 1)
      with (Z.succ (Zpos (digits2_pos p) - 1)) by lia.
    rewrite !Z.pow_succ_r by lia. lia.
  - simpl. lia.
Qed.

Lemma Zdigits2_upper (m d : Z) :
  0 <= m -> 0 <= d -> m < 2 ^ d -> Zdigits2 m <= d.
Proof.
  intros Hm Hd Hlt. destruct m as [| p | p]; simpl; [lia | | lia].
  pose proof (digits2_pos_bounds p) as [Hlo _].
  destruct (Z_le_gt_dec (Zpos (digits2_pos p)) d) as [Hle | Hgt]; [exact Hle |].
  exfalso.
  assert (H2 : 2 ^ d <= 2 ^ (Zpos (digits2_pos p) - 1))
    by (apply Z.pow_le_mono_r; lia).
  lia.
Qed.

(** *** Rounding under an upper bound

    The bound [Mb * 2^Eb] is itself a binary64 number: [Mb] has at most 53
    binary digits and [Eb] is an exponent of the format. *)
Section Bounded.
Variables Mb Eb : Z.
Hypothesis Mb_pos : 0 < Mb.
Hypothesis Mb_prec : Mb < 2 ^ 53.
Hypothesis Eb_min : -1074 <= Eb.
Hypothesis Eb_max : Eb <= 971.

(** Shifting the mantissa right by one digit keeps it under the bound. *)
Lemma under_shr_1 mrs e :
  under Mb Eb mrs e -> e + 1 <= Eb -> under Mb Eb (shr_1 mrs) (e + 1).
Proof.
  unfold under. destruct mrs as [m r s]. cbn [shr_m shr_r shr_s].
  intros (Hm & He & Hb) He1.
  assert (Hpow : 2 ^ (Eb - e) = 2 * 2 ^ (Eb - (e + 1))).
  { replace (Eb - e) with (Z.succ (Eb - (e + 1))) by lia.
    apply Z.pow_succ_r. lia. }
  rewrite Hpow in Hb.
  set (K := 2 ^ (Eb - (e + 1))) in *.
  destruct m as [| [p | p |] | p]; cbn [shr_1 shr_m shr_r shr_s];
    destruct r, s; cbn [orb] in *; try lia.
Qed.

Lemma under_iter_pos p : forall mrs e,
  under Mb Eb mrs e -> e + Zpos p <= Eb ->
  under Mb Eb (iter_pos shr_1 p mrs) (e + Zpos p).
Proof.
  induction p as [p IH | p IH |]; intros mrs e Hu He; cbn [iter_pos].
  - replace (e + Zpos p~1) with (e + 1 + Zpos p + Zpos p) by lia.
    apply IH; [apply IH; [apply under_shr_1; [exact Hu | lia] | lia] | lia].
  - replace (e + Zpos p~0) with (e + Zpos p + Zpos p) by lia.
    apply IH; [apply IH; [exact Hu | lia] | lia].
  - apply under_shr_1; assumption.
Qed.

(** The shift to the exponent of the format never passes [Eb]: a mantissa
    under the bound has at most [53 + (Eb - e)] digits. *)
Lemma under_shr_fexp m e l :
  0 <= m -> e <= Eb ->
  m + (match l with loc_Exact => 0 | _ => 1 end) <= Mb * 2 ^ (Eb - e) ->
  under Mb Eb (fst (shr_fexp prec emax m e l)) (snd (shr_fexp prec emax m e l)).
Proof.
  intros Hm He Hb. unfold shr_fexp, shr.
  assert (Hrec : under Mb Eb (shr_record_of_loc m l) e).
  { unfold under.
    destruct l as [| []]; cbn [shr_record_of_loc shr_m shr_r shr_s orb];
      repeat split; lia. }
  assert (Htarget : fexp prec emax (Zdigits2 m + e) <= Eb).
  { unfold fexp, SpecFloat.emin, prec, emax.
    assert (Hd : Zdigits2 m <= 53 + (Eb - e)).
    { apply Zdigits2_upper; [exact Hm | lia |].
      rewrite Z.pow_add_r by lia.
      assert (0 < 2 ^ (Eb - e)) by (apply Z.pow_pos_nonneg; lia).
      destruct l as [| []]; nia. }
    lia. }
  destruct (fexp prec emax (Zdigits2 m + e) - e) as [| p | p] eqn:Hn;
    cbn [fst snd]; try exact Hrec.
  rewrite <- Hn.
  replace (e + (fexp prec emax (Zdigits2 m + e) - e))
    with (e + Zpos p) by lia.
  apply under_iter_pos; [exact Hrec | lia].
Qed.

(** Rounding to nearest adds at most one, and only to an inexact
    mantissa. *)
Lemma round_nearest_even_under mrs :
  0 <= shr_m mrs ->
  0 <= round_nearest_even (shr_m mrs) (loc_of_shr_record mrs)
    <= shr_m mrs + (if shr_r mrs || shr_s mrs then 1 else 0).
Proof.
  destruct mrs as [m [] []]; cbn [shr_m shr_r shr_s loc_of_shr_record
                                   round_nearest_even orb]; intros Hm;
    try destruct (Z.even m); lia.
Qed.

(** The rounding step every operation ends with: an exact result that is
    at most [Mb * 2^Eb] rounds to a number that is at most [Mb * 2^Eb]. *)
Lemma binary_round_aux_at_most mx ex lx :
  0 <= mx -> ex <= Eb ->
  mx + (match lx with loc_Exact => 0 | _ => 1 end) <= Mb * 2 ^ (Eb - ex) ->
  at_most Mb Eb (binary_round_aux prec emax false mx ex lx).
Proof.
  intros Hm He Hb. unfold binary_round_aux.
  pose proof (under_shr_fexp mx ex lx Hm He Hb) as H1.
  destruct (shr_fexp prec emax mx ex lx) as [mrs' e']. cbn [fst snd] in H1.
  destruct H1 as (Hm' & He' & Hb').
  pose proof (round_nearest_even_under mrs' Hm') as Hr.
  set (m1 := round_nearest_even (shr_m mrs') (loc_of_shr_record mrs')) in *.
  assert (H2 : under Mb Eb (fst (shr_fexp prec emax m1 e' loc_Exact))
                     (snd (shr_fexp prec emax m1 e' loc_Exact)))
    by (apply under_shr_fexp; lia).
  destruct (shr_fexp prec emax m1 e' loc_Exact) as [mrs'' e''].
  cbn [fst snd] in H2.
  destruct H2 as (Hm'' & He'' & Hb'').
  destruct (shr_m mrs'') as [| m | m] eqn:Hshr.
  - left. reflexivity.
  - right. replace (e'' <=? emax - prec) with true
      by (symmetry; apply Z.leb_le; unfold emax, prec; lia).
    exists m, e''. split; [reflexivity |]. split; [exact He'' |].
    destruct (shr_r mrs'' || shr_s mrs''); lia.
  - lia.
Qed.

(** The comparison of the format agrees with the bound. *)
Lemma at_most_leb (mb : positive) (x : spec_float) :
  Zpos mb = Mb -> at_most Mb Eb x -> SFleb x (S754_finite false mb Eb) = true.
Proof.
  intros Hmb [-> | (m & e & -> & He & Hle)]; [reflexivity |].
  unfold SFleb, SFcompare.
  destruct (Z.compare_spec e Eb) as [-> | Hlt | Hgt]; [| reflexivity | lia].
  rewrite Z.sub_diag, Z.mul_1_r, <- Hmb in Hle.
  change (Pos.compare_cont Eq m mb) with (Pos.compare m mb).
  destruct (Pos.compare_spec m mb) as [_ | _ | Hgt]; try reflexivity. lia.
Qed.

Lemma at_most_nonneg (x : spec_float) :
  at_most Mb Eb x -> SFleb (S754_zero false) x = true.
Proof. intros [-> | (m & e & -> & _)]; reflexivity. Qed.

End Bounded.

(** *** Integers below [2^53] convert exactly *)

Lemma iter_xO (p s : positive) :
  Zpos (Pos.iter xO p s) = Zpos p * 2 ^ Zpos s /\
  Zpos (digits2_pos (Pos.iter xO p s)) = Zpos (digits2_pos p) + Zpos s.
Proof.
  induction s as [| s [IH1 IH2]] using Pos.peano_ind.
  - cbn [Pos.iter digits2_pos]. rewrite Pos2Z.inj_succ. lia.
  - rewrite Pos.iter_succ. cbn [digits2_pos].
    rewrite Pos2Z.inj_xO, IH1, !Pos2Z.inj_succ, IH2, Z.pow_succ_r by lia. lia.
Qed.

(** A mantissa of exactly 53 digits is not rounded. *)
Lemma binary_round_aux_exact (m : positive) (e : Z) :
  Zpos (digits2_pos m) = 53 -> -1074 <= e <= 971 ->
  binary_round_aux prec emax false (Zpos m) e loc_Exact = S754_finite false m e.
Proof.
  intros Hd He.
  assert (Hno : shr_fexp prec emax (Zpos m) e loc_Exact
                = ({| shr_m := Zpos m; shr_r := false; shr_s := false |}, e)).
  { unfold shr_fexp, shr. cbn [Zdigits2]. rewrite Hd.
    replace (fexp prec emax (53 + e) - e) with 0
      by (unfold fexp, SpecFloat.emin, prec, emax; lia).
    reflexivity. }
  unfold binary_round_aux. rewrite Hno.
  cbn [shr_m loc_of_shr_record round_nearest_even]. rewrite Hno. cbn [shr_m].
  replace (e <=? emax - prec) with true
    by (symmetry; apply Z.leb_le; unfold emax, prec; lia).
  reflexivity.
Qed.

(** [float(k)] for [0 < k < 2^53] is [k]: its mantissa is [k] shifted left
    to 53 digits. *)
Lemma Prim2SF_float_of_Z (k : Z) :
  0 < k < 2 ^ 53 ->
  exists m e,
    Prim2SF (float_of_Z k) = S754_finite false m e /\
    Zpos (digits2_pos m) = 53 /\
    -52 <= e <= 0 /\
    Zpos m = k * 2 ^ (- e).
Proof.
  intros Hk. unfold float_of_Z.
  replace (k <? 0) with false by (symmetry; apply Z.ltb_ge; lia).
  rewrite of_uint63_spec, Uint63.of_Z_spec.
  rewrite Z.mod_small by (change wB with (2 ^ 63); split; [lia |];
    assert (2 ^ 53 < 2 ^ 63) by (apply Z.pow_lt_mono_r; lia); lia).
  destruct k as [| p | p]; try lia.
  cbn [binary_normalize]. unfold binary_round, shl_align.
  pose proof (digits2_pos_bounds p) as [Hlo Hhi].
  assert (Hd : Zpos (digits2_pos p) <= 53).
  { apply (Zdigits2_upper (Zpos p) 53); lia. }
  replace (fexp prec emax (Zpos (digits2_pos p) + 0) - 0)
    with (Zpos (digits2_pos p) - 53)
    by (unfold fexp, SpecFloat.emin, prec, emax; lia).
  replace (fexp prec emax (Zpos (digits2_pos p) + 0))
    with (Zpos (digits2_pos p) - 53)
    by (unfold fexp, SpecFloat.emin, prec, emax; lia).
  destruct (Zpos (digits2_pos p) - 53) as [| d | d] eqn:Hshift; try lia.
  - exists p, 0. rewrite binary_round_aux_exact by lia.
    repeat split; try lia.
  - destruct (iter_xO p d) as [Hval Hdig].
    exists (Pos.iter xO p d), (Z.neg d).
    rewrite binary_round_aux_exact by lia.
    repeat split; try lia. exact Hval.
Qed.

(** *** A share of at most one, and its percentage *)

Lemma new_location_exact (nb_steps : Z) :
  new_location nb_steps 0 = loc_Exact.
Proof. unfold new_location. destruct (Z.even nb_steps); reflexivity. Qed.

(** [k / n] with [0 < k <= n] rounds to at most [1.0 = 2^52 * 2^-52]. *)
Lemma SFdiv_at_most_one (k n : Z) :
  0 < k -> k <= n -> n < 2 ^ 53 ->
  at_most (2 ^ 52) (-52)
    (SFdiv prec emax (Prim2SF (float_of_Z k)) (Prim2SF (float_of_Z n))).
Proof.
  intros Hk Hkn Hn.
  destruct (Prim2SF_float_of_Z k ltac:(lia)) as (m1 & e1 & -> & Hd1 & He1 & Hm1).
  destruct (Prim2SF_float_of_Z n ltac:(lia)) as (m2 & e2 & -> & Hd2 & He2 & Hm2).
  pose proof (digits2_pos_bounds m1) as [Hlo1 Hhi1].
  pose proof (digits2_pos_bounds m2) as [Hlo2 Hhi2].
  rewrite Hd1 in Hlo1, Hhi1. rewrite Hd2 in Hlo2, Hhi2.
  change (2 ^ (53 - 1)) with (2 ^ 52) in *.
  (* the smaller number has the smaller exponent *)
  assert (He : e1 <= e2).
  { destruct (Z_le_gt_dec e1 e2) as [Hle | Hgt]; [exact Hle | exfalso].
    assert (Hpow : 2 ^ (- e2) = 2 ^ (- e1) * 2 ^ (e1 - e2)).
    { rewrite <- Z.pow_add_r by lia. f_equal. lia. }
    assert (Htwo : 2 <= 2 ^ (e1 - e2)).
    { change 2 with (2 ^ 1) at 1. apply Z.pow_le_mono_r; lia. }
    assert (0 < 2 ^ (- e1)) by (apply Z.pow_pos_nonneg; lia).
    nia. }
  cbn [SFdiv xorb]. unfold SFdiv_core_binary. cbn [Zdigits2].
  rewrite Hd1, Hd2.
  replace (Z.min (fexp prec emax (53 + e1 - (53 + e2))) (e1 - e2))
    with (e1 - e2 - 53)
    by (unfold fexp, SpecFloat.emin, prec, emax; lia).
  replace (e1 - e2 - (e1 - e2 - 53)) with 53 by lia.
  rewrite Z.shiftl_mul_pow2 by lia.
  pose proof (Z_div_mod (Zpos m1 * 2 ^ 53) (Zpos m2) ltac:(lia)) as Hdiv.
  destruct (Z.div_eucl (Zpos m1 * 2 ^ 53) (Zpos m2)) as [q r].
  destruct Hdiv as (Hq & Hr).
  (* the quotient of the mantissas is at most [2^(53 + e2 - e1)] *)
  assert (Hpow : 2 ^ (- e1) = 2 ^ (- e2) * 2 ^ (e2 - e1)).
  { rewrite <- Z.pow_add_r by lia. f_equal. lia. }
  assert (Hp1 : 0 < 2 ^ (- e2)) by (apply Z.pow_pos_nonneg; lia).
  assert (Hp2 : 0 < 2 ^ (e2 - e1)) by (apply Z.pow_pos_nonneg; lia).
  assert (Hbound : 2 ^ 52 * 2 ^ (-52 - (e1 - e2 - 53)) = 2 ^ 53 * 2 ^ (e2 - e1)).
  { replace (-52 - (e1 - e2 - 53)) with (1 + (e2 - e1)) by lia.
    rewrite Z.pow_add_r by lia. change (2 ^ 1) with 2. change (2 ^ 53) with (2 * 2 ^ 52).
    ring. }
  assert (Hnum : Zpos m1 * 2 ^ 53 <= (2 ^ 53 * 2 ^ (e2 - e1)) * Zpos m2).
  { rewrite Hm1, Hm2, Hpow. 
    assert (k * (2 ^ (- e2) * 2 ^ (e2 - e1)) <= n * (2 ^ (- e2) * 2 ^ (e2 - e1)))
      by (apply Z.mul_le_mono_nonneg_r; nia).
    nia. }
  assert (Hq0 : 0 <= q) by nia.
  apply (binary_round_aux_at_most (2 ^ 52) (-52) eq_refl eq_refl
           ltac:(lia) ltac:(lia)); [exact Hq0 | lia |].
  - rewrite Hbound. set (T := 2 ^ 53 * 2 ^ (e2 - e1)) in *.
    destruct (Z.eq_dec r 0) as [-> | Hne].
    + rewrite new_location_exact. nia.
    + assert (q < T) by nia.
      destruct (new_location (Zpos m2) r); lia.
Qed.


(** In binary64, the percentage of [k] out of [n] samples lies between 0
    and 100, for every non-empty sample of fewer than [2^53] rows. *)
Lemma percent_in_range_binary64 (k n : nat) :
  (k <= n)%nat -> (0 < n)%nat -> Z.of_nat n < 2 ^ 53 ->
  in_range 0 100 (fmul (of_Z 100) (fdiv (of_nat k) (of_nat n)) : float) = true.
Proof.
  intros Hkn Hn Hsize.
  unfold in_range, of_nat. cbn [fmul fdiv fleb of_Z Scalar_float].
  set (y := PrimFloat.mul (float_of_Z 100)
              (PrimFloat.div (float_of_Z (Z.of_nat k)) (float_of_Z (Z.of_nat n)))).
  assert (Hhundred : Prim2SF (float_of_Z 100)
                     = S754_finite false 7036874417766400 (-46))
    by (vm_compute; reflexivity).
  assert (Hzero : Prim2SF (float_of_Z 0) = S754_zero false)
    by (vm_compute; reflexivity).
  assert (Hy : at_most 7036874417766400 (-46) (Prim2SF y)).
  { unfold y. rewrite FloatAxioms.mul_spec, FloatAxioms.div_spec, Hhundred.
    unfold SF64mul, SF64div.
    destruct (Z.eq_dec (Z.of_nat k) 0) as [-> | Hpos].
    - rewrite Hzero.
      destruct (Prim2SF_float_of_Z (Z.of_nat n) ltac:(lia)) as (m2 & e2 & -> & _).
      left. reflexivity.
    - destruct (SFdiv_at_most_one (Z.of_nat k) (Z.of_nat n)
                  ltac:(lia) ltac:(lia) Hsize)
        as [-> | (mq & eq & -> & He & Hq)]; [left; reflexivity |].
      cbn [SFmul xorb].
      assert (Hone : 2 ^ 52 * 2 ^ (-52 - eq) = 2 ^ (- eq)).
      { rewrite <- Z.pow_add_r by lia. f_equal. lia. }
      rewrite Hone in Hq.
      apply (binary_round_aux_at_most 7036874417766400 (-46) eq_refl eq_refl
               ltac:(lia) ltac:(lia)); [lia | lia |].
      replace (-46 - (-46 + eq)) with (- eq) by lia.
      rewrite Pos2Z.inj_mul. nia. }
  apply andb_true_intro. rewrite !FloatAxioms.leb_spec, Hzero, Hhundred. split.
  - apply (at_most_nonneg _ _ _ Hy).
  - apply (at_most_leb 7036874417766400 (-46) 7036874417766400 _ eq_refl Hy).
Qed.

(** *** The accuracies in binary64 *)
Section Binary64Metrics.
Context {net batch plateau : Type} `{Torch float net batch plateau}.

(** C8, as amended: for every loader that yields at least one row (and
    fewer than [2^53] rows, so that every count is a float), the accuracy
    that [eval_model_train] and [eval_model_valid] append, computed in
    binary64, lies in the closed interval from 0 to 100. *)
Theorem accuracy_within_percent_range (model : net) (loader : list batch)
    (acc_list : list float) (tr : list (event float batch)) :
  loader_labels loader <> [] ->
  Z.of_nat (List.length (loader_labels loader)) < 2 ^ 53 ->
  let acc := fmul (of_Z 100)
               (accuracy_score (loader_labels loader)
                  (loader_predictions model loader)) in
  fst (eval_model_train model loader acc_list tr) = acc_list ++ [acc] /\
  fst (eval_model_valid model loader acc_list tr) = acc_list ++ [acc] /\
  in_range 0 100 acc = true.
Proof.
  intros Hne Hsize acc.
  rewrite eval_model_train_spec, eval_model_valid_spec. cbv zeta. simpl.
  repeat split. unfold acc, accuracy_score.
  apply percent_in_range_binary64.
  - apply count_equal_le.
  - destruct (loader_labels loader); [contradiction | simpl; lia].
  - exact Hsize.
Qed.

End Binary64Metrics.

(** *** The test evaluation *)

Lemma map_snd_combine {A B : Type} (l : list A) : forall l' : list B,
  List.length l = List.length l' -> map snd (combine l l') = l'.
Proof.
  induction l as [| a l IH]; intros [| b l'] Hlen; simpl in *;
    try discriminate; [reflexivity |].
  f_equal. apply IH. lia.
Qed.

(** The counts of the library, read on the samples. *)
Lemma count_pair_how_many (a b : Z) (y_true : list Z) : forall y_pred,
  count_pair a b y_true y_pred
  = how_many (fun s => Z.eqb (fst s) a && Z.eqb (snd s) b) (combine y_true y_pred).
Proof.
  unfold how_many.
  induction y_true as [| t y_true IH]; intros [| p y_pred]; simpl; try reflexivity.
  rewrite IH. destruct (Z.eqb t a && Z.eqb p b); reflexivity.
Qed.

Lemma count_label_true (a : Z) (y_true : list Z) : forall y_pred,
  List.length y_true = List.length y_pred ->
  count_label a y_true
  = (true_positives a (combine y_true y_pred)
     + false_negatives a (combine y_true y_pred))%nat.
Proof.
  unfold count_label, true_positives, false_negatives, how_many.
  induction y_true as [| t y_true IH]; intros [| p y_pred] Hlen;
    try discriminate Hlen; [reflexivity |].
  cbn [List.length] in Hlen. cbn [filter combine fst snd].
  rewrite (Z.eqb_sym a t).
  destruct (Z.eqb t a), (Z.eqb p a); cbn [andb negb List.length];
    rewrite (IH y_pred) by lia; lia.
Qed.

Lemma count_label_pred (a : Z) (y_true : list Z) : forall y_pred,
  List.length y_true = List.length y_pred ->
  count_label a y_pred
  = (true_positives a (combine y_true y_pred)
     + false_positives a (combine y_true y_pred))%nat.
Proof.
  unfold count_label, true_positives, false_positives, how_many.
  induction y_true as [| t y_true IH]; intros [| p y_pred] Hlen;
    try discriminate Hlen; [reflexivity |].
  cbn [List.length] in Hlen. cbn [filter combine fst snd].
  rewrite (Z.eqb_sym a p).
  destruct (Z.eqb t a), (Z.eqb p a); cbn [andb negb List.length];
    rewrite (IH y_pred) by lia; lia.
Qed.

Section TestEvaluation.
Context {F net batch plateau : Type} `{Scalar F} `{Torch F net batch plateau}.

(** The library's report line is the line by definition. *)
Lemma class_row_expected (y_true y_pred : list Z) (a : Z) (name : string) :
  List.length y_true = List.length y_pred ->
  class_row (F := F) y_true y_pred a name
  = expected_row a name (combine y_true y_pred).
Proof.
  intros Hlen. unfold class_row, expected_row, prf_divide. cbv zeta.
  rewrite (count_label_true a y_true y_pred Hlen),
          (count_label_pred a y_true y_pred Hlen).
  rewrite count_pair_how_many. reflexivity.
Qed.

(** C6, as amended: [eval_model_test] makes one inference pass over the
    test loader (one forward call per batch, in order).  The classes it
    reports on are the labels that occur among the true and the predicted
    classes, in ascending order.  When there is at least one and they are
    as many as the class names, it returns the report, with one line per
    class that carries the class's name, precision, recall, F1 score and
    support as they are defined on the test samples, together with the
    confusion matrix normalised over all its rows and columns at once:
    every cell is the share of its (true, predicted) pair among all test
    samples.  Otherwise [classification_report] raises [ValueError] and
    nothing is returned. *)
Theorem test_evaluation_report_and_matrix (model : net) (loader : list batch)
    (names : list string) (tr : list (event F batch)) :
  let y_true := loader_labels loader in
  let y_pred := loader_predictions model loader in
  let samples := combine y_true y_pred in
  let cls := unique_labels y_true y_pred in
  (StronglySorted Z.lt cls /\
   forall a, In a cls <-> In a y_true \/ In a y_pred) /\
  (cls <> [] -> List.length cls = List.length names ->
   exists report cm,
     eval_model_test model loader names tr
       = Ok (report, cm, tr ++ map Forward loader) /\
     report = map (fun an => expected_row (fst an) (snd an) samples)
                (combine cls names) /\
     map (@class_name F) report = names /\
     cm = map (fun a => map (fun b => expected_cell a b samples) cls) cls) /\
  (cls = [] \/ List.length cls <> List.length names ->
   exists msg,
     eval_model_test model loader names tr = Raise (ValueError msg)).
Proof.
  intros y_true y_pred samples cls.
  assert (Hsame : List.length y_true = List.length y_pred)
    by (symmetry; apply loader_predictions_length).
  split; [| split].
  - split; [apply unique_labels_sorted |].
    intros a. unfold cls. rewrite unique_labels_In, in_app_iff. reflexivity.
  - intros Hne Hlen.
    destruct (eval_model_test_cases model loader names tr)
      as [(_ & _ & Hrun) | ([Hnil | Hneq] & _)];
      [| contradiction | contradiction].
    fold y_true y_pred cls in Hrun.
    do 2 eexists. split; [exact Hrun |]. split; [| split].
    + apply map_ext. intros [a name]. apply class_row_expected, Hsame.
    + rewrite map_map. simpl. apply map_snd_combine, Hlen.
    + unfold confusion_matrix_all.
      rewrite confusion_counts_total by exact Hsame.
      unfold confusion_counts. fold cls. rewrite map_map.
      apply map_ext. intros a. rewrite map_map.
      apply map_ext. intros b. unfold expected_cell, samples.
      rewrite count_pair_how_many, length_combine, <- Hsame, Nat.min_id.
      reflexivity.
  - intros Hbad.
    destruct (eval_model_test_cases model loader names tr)
      as [(Hne & Hlen & _) | (_ & Hraise)]; [| exact Hraise].
    fold y_true y_pred cls in Hne, Hlen. destruct Hbad; contradiction.
Qed.

End TestEvaluation.

(** C6, as stated, leaves out that the evaluation can fail: on a test set
    in which one of the two classes does not occur at all (two samples of
    class 0, both predicted as class 0), [classification_report] finds one
    label for two class names and raises [ValueError]; no report and no
    matrix is returned. *)
Lemma test_set_without_a_class_raises :
  loader_labels [Scripted.first_class_only] = [0; 0] /\
  loader_predictions 0%nat [Scripted.first_class_only] = [0; 0] /\
  exists msg,
    eval_model_test (F := float) 0%nat [Scripted.first_class_only]
      ["a"; "b"]%string [] = Raise (ValueError msg).
Proof.
  split; [reflexivity |]. split; [reflexivity |].
  eexists. vm_compute. reflexivity.
Qed.

(** ** The command line *)

(** *** Strings *)


Lemma substring_all s : String.substring 0 (String.length s) s = s.
Proof.
  induction s as [| c s IH]; simpl; [reflexivity | rewrite IH; reflexivity].
Qed.







(** *** Tokens *)







(** *** The scan *)




(** Induction along the scan, which consumes one token or two. *)
Lemma scan_args_step_ind (P : list string -> Prop) :
  P [] ->
  (forall t rest,
     P rest -> (forall v rest', rest = v :: rest' -> P rest') -> P (t :: rest)) ->
  forall argv, P argv.
Proof.
  intros Hnil Hstep argv.
  assert (Hboth : P argv /\ (forall v rest', argv = v :: rest' -> P rest')).
  { induction argv as [| t rest [IH1 IH2]].
    - split; [exact Hnil | intros v rest' Heq; discriminate].
    - split.
      + apply Hstep; assumption.
      + intros v rest' Heq. injection Heq as _ <-. exact IH1. }
  exact (proj1 Hboth).
Qed.





(** *** Where a recorded argument comes from *)

(** A token splits at its first [=] into what it is made of. *)
Lemma index_equals_split (t : string) : forall k,
  String.index 0 "=" t = Some k ->
  t = (String.substring 0 k t
       ++ String "=" (String.substring (S k) (String.length t - S k) t))%string.
Proof.
  induction t as [| b t IH]; intros k Hk.
  - discriminate Hk.
  - cbn [String.index] in Hk.
    destruct (String.prefix "=" (String b t)) eqn:Hp.
    + injection Hk as <-. cbn [String.prefix] in Hp.
      destruct (ascii_dec "=" b) as [<- | _]; [| discriminate Hp].
      cbn [String.substring String.length append Nat.sub].
      rewrite Nat.sub_0_r, substring_all. reflexivity.
    + destruct (String.index 0 "=" t) as [n |] eqn:Hn; [| discriminate Hk].
      injection Hk as <-.
      cbn [String.substring String.length append Nat.sub].
      rewrite <- (IH n eq_refl). reflexivity.
Qed.

Lemma split_equals_inv (t p e : string) :
  split_equals t = Some (p, e) -> t = (p ++ String "=" e)%string.
Proof.
  unfold split_equals.
  destruct (String.index 0 "=" t) as [k |] eqn:Hk; [| discriminate].
  intros Heq. injection Heq as <- <-. apply index_equals_split, Hk.
Qed.

Lemma lookup_option_fl (s : string) :
  lookup_option s = Some store_fl -> s = "--fl"%string.
Proof.
  unfold lookup_option. cbn [find option_string_actions fst].
  repeat match goal with
         | |- context [String.eqb ?x s] =>
             destruct (String.eqb_spec x s) as [<- | _];
             [cbn [option_map snd]; intros Heq;
              first [reflexivity | discriminate Heq] |]
         end.
  discriminate.
Qed.

(** No abbreviation stands for [--fl] alone: [--f] could also be
    [--fullfinetune]. *)
Lemma abbreviation_not_fl (p name : string) (e e' : option string) :
  flat_map (fun sa => if String.prefix p (fst sa)
                      then [(snd sa, fst sa, e)] else [])
    option_string_actions = [(store_fl, name, e')] ->
  p = "--fl"%string.
Proof.
  cbn [flat_map option_string_actions fst snd app].
  destruct (String.prefix p "--fl") eqn:Hfl.
  - assert (Hcases : In p [""; "-"; "--"; "--f"; "--fl"]%string).
    { repeat
        (destruct p as [| ? p]; [cbn [In]; tauto |];
         cbn [String.prefix] in Hfl;
         match type of Hfl with
         | context [ascii_dec ?a ?b] =>
             destruct (ascii_dec a b) as [-> | ]; [| discriminate Hfl]
         end).
      destruct p; [cbn [In]; tauto | discriminate Hfl]. }
    cbn [In] in Hcases.
    repeat (destruct Hcases as [<- | Hcases]; [try (intros Heq; discriminate Heq) |]).
    + reflexivity.
    + contradiction.
  - destruct (String.prefix p "-h"), (String.prefix p "--help"),
      (String.prefix p "--model"), (String.prefix p "--fullfinetune");
      cbn [app]; intros Heq; discriminate Heq.
Qed.

(** A one-dash token can only stand for [-h]. *)
Lemma short_option_is_help (c1 : ascii) (rest : string) (a : action)
    (name : string) (e : option string) :
  Ascii.eqb c1 "-" = false ->
  In (a, name, e)
    (flat_map (fun sa =>
                 if String.eqb (fst sa) (String "-" (String c1 EmptyString))
                 then [(snd sa, fst sa, Some rest)]
                 else if String.prefix (String "-" (String c1 rest)) (fst sa)
                 then [(snd sa, fst sa, None)] else [])
       option_string_actions) ->
  a = help.
Proof.
  intros Hc1.
  assert (Hne : forall s, String.eqb (String "-" (String "-" s))
                            (String "-" (String c1 EmptyString)) = false).
  { intros s. cbn [String.eqb]. rewrite (Ascii.eqb_sym "-" c1), Hc1.
    reflexivity. }
  assert (Hnp : forall s, String.prefix (String "-" (String c1 rest))
                            (String "-" (String "-" s)) = false).
  { intros s. cbn [String.prefix].
    destruct (ascii_dec "-" "-") as [_ | Hx]; [| contradiction].
    destruct (ascii_dec c1 "-") as [-> | _]; [discriminate Hc1 | reflexivity]. }
  cbn [flat_map option_string_actions fst snd].
  rewrite !Hne, !Hnp. cbn [app].
  destruct (String.eqb "-h" (String "-" (String c1 EmptyString)));
    [| destruct (String.prefix (String "-" (String c1 rest)) "-h")];
    cbn [app In]; intros Hin; try contradiction;
    destruct Hin as [Heq | []]; injection Heq as <- _ _; reflexivity.
Qed.

(** Among the options a token can abbreviate, [--fl] is alone only
    when it is written out. *)
Lemma get_option_tuples_fl (t o : string) (e : option string) :
  get_option_tuples t = [(store_fl, o, e)] ->
  match split_equals t with
  | Some (p, _) => p = "--fl"%string
  | None => t = "--fl"%string
  end.
Proof.
  unfold get_option_tuples.
  destruct t as [| c0 [| c1 t'']]; try discriminate.
  destruct (Ascii.eqb_spec c0 "-") as [-> | _]; cbn [andb]; [| discriminate].
  destruct (Ascii.eqb c1 "-") eqn:Hc1; cbn [negb].
  - destruct (split_equals (String "-" (String c1 t''))) as [[p e0] |];
      intros Heq; apply abbreviation_not_fl in Heq; exact Heq.
  - intros Heq.
    assert (Hin : In (store_fl, o, e)
                    (flat_map
                       (fun sa =>
                          if String.eqb (fst sa) (String "-" (String c1 EmptyString))
                          then [(snd sa, fst sa, Some t'')]
                          else if String.prefix (String "-" (String c1 t''))
                                    (fst sa)
                          then [(snd sa, fst sa, None)] else [])
                       option_string_actions))
      by (rewrite Heq; left; reflexivity).
    apply short_option_is_help in Hin; [discriminate Hin | exact Hc1].
Qed.

(** The tokens that stand for [--fl]: the option string itself, or the
    option string with an argument attached. *)
Lemma parse_optional_fl_inv (t name : string) (e : option string) :
  parse_optional t = optional (Some store_fl) name e ->
  t = "--fl"%string /\ e = None \/
  exists v, e = Some v /\ t = ("--fl" ++ String "=" v)%string.
Proof.
  unfold parse_optional. destruct t as [| c0 t']; [discriminate |].
  destruct (Ascii.eqb_spec c0 "-") as [-> | _]; cbn [negb]; [| discriminate].
  destruct (lookup_option (String "-" t')) as [a |] eqn:Hl.
  { intros Heq. injection Heq as -> <- <-. left.
    split; [apply lookup_option_fl, Hl | reflexivity]. }
  destruct (Nat.eqb (String.length (String "-" t')) 1); [discriminate |].
  pose proof (get_option_tuples_fl (String "-" t')) as Htuples.
  destruct (split_equals (String "-" t')) as [[p e0] |] eqn:Hs.
  - destruct (lookup_option p) as [a |] eqn:Hlp; cbn [option_map].
    + intros Heq. injection Heq as -> <- <-. right. exists e0.
      split; [reflexivity |].
      apply lookup_option_fl in Hlp. subst p. apply split_equals_inv, Hs.
    + destruct (get_option_tuples (String "-" t')) as [| [[a o] e1] [| ? ?]];
        try discriminate.
      * destruct (negative_number_matcher (String "-" t')); [discriminate |].
        destruct (contains " " (String "-" t')); discriminate.
      * intros Heq. injection Heq as -> <- <-.
        rewrite (Htuples o e1 eq_refl) in Hlp. discriminate Hlp.
  - destruct (get_option_tuples (String "-" t')) as [| [[a o] e1] [| ? ?]];
      try discriminate.
    + destruct (negative_number_matcher (String "-" t')); [discriminate |].
      destruct (contains " " (String "-" t')); discriminate.
    + intros Heq. injection Heq as -> <- <-.
      rewrite (Htuples o e1 eq_refl) in Hl. discriminate Hl.
Qed.

(** Where the argument of [--fl] comes from: an accepted command line
    that records [v] for [--fl] holds [--fl v] or [--fl=v]. *)
Lemma scan_args_fl_source (argv : list string) : forall raw raw' v,
  scan_args argv raw = Some raw' ->
  raw_fl raw' = Some v ->
  raw_fl raw = Some v \/
  (exists pre post,
     argv = pre ++ ["--fl"; v]%string ++ post /\ is_argument v = true) \/
  In ("--fl" ++ String "=" v)%string argv.
Proof.
  induction argv as [| t rest IH1 IH2] using scan_args_step_ind;
    intros raw raw' v.
  - simpl. intros Heq Hv. injection Heq as <-. left. exact Hv.
  - cbn [scan_args]. destruct (String.eqb t "--"); [discriminate |].
    destruct (parse_optional t) as [| [a |] name [e |] |] eqn:Ht;
      try discriminate.
    + destruct (set_option a e raw) as [raw1 |] eqn:Hset; [| discriminate].
      intros Hscan Hv.
      destruct (IH1 raw1 raw' v Hscan Hv) as [Hhere | [Hlater | Hlater]].
      * destruct a; cbn [set_option] in Hset; try discriminate Hset;
          injection Hset as <-; cbn [raw_fl] in Hhere; auto.
        injection Hhere as ->.
        apply parse_optional_fl_inv in Ht as [(_ & Hnone) | (v' & Hsome & ->)];
          [discriminate Hnone |].
        injection Hsome as <-. right. right. left. reflexivity.
      * destruct Hlater as (pre & post & -> & Harg).
        right. left. exists (t :: pre), post. split; [reflexivity | exact Harg].
      * right. right. right. exact Hlater.
    + destruct rest as [| arg rest']; [discriminate |].
      destruct (is_argument arg) eqn:Harg; [| discriminate].
      destruct (set_option a arg raw) as [raw1 |] eqn:Hset; [| discriminate].
      intros Hscan Hv.
      destruct (IH2 arg rest' eq_refl raw1 raw' v Hscan Hv)
        as [Hhere | [Hlater | Hlater]].
      * destruct a; cbn [set_option] in Hset; try discriminate Hset;
          injection Hset as <-; cbn [raw_fl] in Hhere; auto.
        injection Hhere as ->.
        apply parse_optional_fl_inv in Ht as [(-> & _) | (v' & Hsome & _)];
          [| discriminate Hsome].
        right. left. exists [], rest'. split; [reflexivity | exact Harg].
      * destruct Hlater as (pre & post & -> & Harg').
        right. left. exists (t :: arg :: pre), post.
        split; [reflexivity | exact Harg'].
      * right. right. right. right. exact Hlater.
Qed.

Section CommandLine.
Context {F net batch plateau : Type} `{Scalar F} `{Torch F net batch plateau}.


End CommandLine.


(** ** Concrete runs *)

(** Three epochs over five batches with [iteration = 2]: two rows of
    [loss.csv] per epoch, the fifth batch of each epoch is dropped. *)
Lemma loss_csv_row_count_run :
  exists st files,
    train Scripted.five_data Scripted.default_args "squeezenet1_1" 3 2
      Scripted.default_lr = Ok (st, files) /\
    Z.of_nat (List.length (data_rows (loss_csv files))) = 3 * (5 / 2).
Proof.
  destruct (train Scripted.five_data Scripted.default_args "squeezenet1_1" 3 2
              Scripted.default_lr) as [[st files] | e] eqn:Hrun;
    [| vm_compute in Hrun; discriminate].
  exists st, files. split; [reflexivity |].
  exact (proj2 (loss_csv_row_count Scripted.five_data Scripted.default_args
                  "squeezenet1_1" 3 2 Scripted.default_lr st files
                  ltac:(lia) ltac:(lia) Hrun)).
Defined.

Lemma tracking_lists_aligned_run :
  exists st files,
    train Scripted.five_data Scripted.default_args "squeezenet1_1" 3 2
      Scripted.default_lr = Ok (st, files) /\
    Z.of_nat (List.length (tra_acc_list st)) = 3 /\
    Z.of_nat (List.length (val_acc_list st)) = 3 /\
    Z.of_nat (List.length (lr_list st)) = 3.
Proof.
  destruct (train Scripted.five_data Scripted.default_args "squeezenet1_1" 3 2
              Scripted.default_lr) as [[st files] | e] eqn:Hrun;
    [| vm_compute in Hrun; discriminate].
  exists st, files. split; [reflexivity |].
  destruct (tracking_lists_aligned Scripted.five_data Scripted.default_args
              "squeezenet1_1" 3 2 Scripted.default_lr st files
              ltac:(lia) Hrun) as ((Ht & Hv & Hl & _) & _).
  auto.
Defined.

Lemma empty_loader_run :
  train Scripted.no_train_data Scripted.default_args "squeezenet1_1" 1 10
    Scripted.default_lr = Raise (UnboundLocalError "loss").
Proof.
  exact (proj1 (proj1 (empty_loader_raises_NameError Scripted.no_train_data
                         Scripted.default_args "squeezenet1_1" 1 10
                         Scripted.default_lr ltac:(lia))
                  eq_refl)).
Defined.

(** The second epoch over [pair_data]: the scheduler is stepped with 3.0,
    the loss of the second, final batch. *)
Lemma scheduler_step_run :
  train_epochs Scripted.pair_data Scripted.default_args "squeezenet1_1"
    (Z.of_nat 1) 2 Scripted.default_lr = Ok Scripted.pair_after_one /\
  train_epoch Scripted.pair_data (select_criterion Scripted.default_args) 2
    Scripted.pair_after_one = Ok Scripted.pair_after_two /\
  exists ev l,
    trace Scripted.pair_after_two
      = trace Scripted.pair_after_one ++ ev ++ [SchedStep l] /\
    Forall (fun e => is_sched_step e = false) ev /\
    (scheduler Scripted.pair_after_two, optimizer_lr Scripted.pair_after_two)
      = Scripted.step_plateau (scheduler Scripted.pair_after_one) l
          (optimizer_lr Scripted.pair_after_one).
Proof.
  assert (H1 : train_epochs Scripted.pair_data Scripted.default_args
                 "squeezenet1_1" (Z.of_nat 1) 2 Scripted.default_lr
               = Ok Scripted.pair_after_one) by (vm_compute; reflexivity).
  assert (H2 : train_epoch Scripted.pair_data
                 (select_criterion Scripted.default_args) 2
                 Scripted.pair_after_one
               = Ok Scripted.pair_after_two) by (vm_compute; reflexivity).
  split; [exact H1 |]. split; [exact H2 |].
  destruct (scheduler_stepped_once_with_last_batch_loss Scripted.pair_data
              Scripted.default_args "squeezenet1_1" 2 Scripted.default_lr 1%nat
              Scripted.pair_after_one Scripted.pair_after_two H1 H2)
    as (loader & data & st_prev & ev1 & ev2 & acc_t & acc_v & ev
        & _ & _ & Htr & Hno & _ & _ & _ & Hstep & _).
  exists ev. eexists. split; [exact Htr |]. split; [exact Hno | exact Hstep].
Defined.

(** The second epoch over [pair_data] logs the rate it runs at; the
    scheduler's reduction shows only in the optimizer afterwards. *)
Lemma logged_rate_run :
  train_epoch Scripted.pair_data (select_criterion Scripted.default_args) 2
    Scripted.pair_after_one = Ok Scripted.pair_after_two /\
  lr_list Scripted.pair_after_two
    = lr_list Scripted.pair_after_one ++ [optimizer_lr Scripted.pair_after_one].
Proof.
  assert (H2 : train_epoch Scripted.pair_data
                 (select_criterion Scripted.default_args) 2
                 Scripted.pair_after_one
               = Ok Scripted.pair_after_two) by (vm_compute; reflexivity).
  split; [exact H2 |].
  exact (proj1 (logged_rate_is_rate_in_effect Scripted.pair_data
                  (select_criterion Scripted.default_args) 2
                  Scripted.pair_after_one Scripted.pair_after_two H2)).
Defined.

(** One test batch of two rows, two class names: class [a] has precision
    1/2 and recall 1, class [b] is never predicted. *)
Lemma test_evaluation_run :
  exists report cm,
    eval_model_test 0%nat (tesLoader Scripted.pair_data) ["a"; "b"]%string []
      = Ok (report, cm, [] ++ map Forward (tesLoader Scripted.pair_data)) /\
    report = [ {| class_name := "a"%string; precision := 0.5%float;
                  recall := 1%float;
                  f1_score := PrimFloat.div 1%float 1.5%float;
                  support := 1 |};
               {| class_name := "b"%string; precision := 0%float;
                  recall := 0%float; f1_score := 0%float; support := 1 |} ] /\
    cm = [[0.5%float; 0%float]; [0.5%float; 0%float]].
Proof.
  assert (Hne : unique_labels (loader_labels (tesLoader Scripted.pair_data))
                  (loader_predictions 0%nat (tesLoader Scripted.pair_data))
                <> []) by (vm_compute; discriminate).
  assert (Hlen : List.length
                   (unique_labels (loader_labels (tesLoader Scripted.pair_data))
                      (loader_predictions 0%nat (tesLoader Scripted.pair_data)))
                 = List.length ["a"; "b"]%string) by (vm_compute; reflexivity).
  destruct (proj1 (proj2 (test_evaluation_report_and_matrix (F := float) 0%nat
                            (tesLoader Scripted.pair_data) ["a"; "b"]%string []))
              Hne Hlen)
    as (report & cm & Hrun & Hreport & _ & Hcm).
  exists report, cm. split; [exact Hrun |].
  split; [rewrite Hreport | rewrite Hcm]; vm_compute; reflexivity.
Defined.

Lemma confusion_matrix_run :
  exists report cm tr',
    eval_model_test 0%nat [Scripted.two_rows (0 : Q)] ["a"; "b"]%string []
      = Ok (report, cm, tr') /\
    (matrix_sum cm == 1)%Q.
Proof.
  destruct (eval_model_test 0%nat [Scripted.two_rows (0 : Q)] ["a"; "b"]%string [])
    as [[[report cm] tr'] | e] eqn:Hrun; [| vm_compute in Hrun; discriminate].
  exists report, cm, tr'. split; [reflexivity |].
  apply (confusion_matrix_sums_to_one 0%nat [Scripted.two_rows (0 : Q)]
           ["a"; "b"]%string [] tr' report cm Hrun).
  simpl. discriminate.
Defined.

Lemma accuracy_range_run :
  in_range 0 100
    (fmul (of_Z 100)
       (accuracy_score (loader_labels [Scripted.two_rows 0%float])
          (loader_predictions 0%nat [Scripted.two_rows 0%float])) : float) = true.
Proof.
  assert (Hne : loader_labels [Scripted.two_rows 0%float] <> [])
    by (simpl; discriminate).
  assert (Hsize : Z.of_nat (List.length (loader_labels [Scripted.two_rows 0%float]))
                  < 2 ^ 53) by reflexivity.
  exact (proj2 (proj2 (accuracy_within_percent_range 0%nat
                         [Scripted.two_rows 0%float] [] [] Hne Hsize))).
Defined.


(** * Further properties of the script *)

(** ** Which batch a recorded loss comes from *)

(** The index of batch [i + 1] within its group of [iteration]. *)
Lemma mod_succ_group (i iteration : Z) :
  0 <= i -> 0 < iteration ->
  (i + 1) mod iteration =
  if i mod iteration =? iteration - 1 then 0 else i mod iteration + 1.
Proof.
  intros Hi Hit.
  pose proof (Z.div_mod i iteration ltac:(lia)) as Hdm.
  pose proof (Z.mod_pos_bound i iteration Hit) as Hb.
  destruct (Z.eqb_spec (i mod iteration) (iteration - 1)) as [He | Hne].
  - symmetry. apply (Z.mod_unique (i + 1) iteration (i / iteration + 1) 0); lia.
  - symmetry.
    apply (Z.mod_unique (i + 1) iteration (i / iteration) (i mod iteration + 1)); lia.
Qed.

(** Entry [j] of what the loop records from batch [i] on comes from the
    [j]-th batch that ends a group, and from that batch alone. *)
Lemma last_of_each_group_nth {F : Type} `{Scalar F} (iteration : Z)
    (losses : list F) : forall (i j : nat),
  0 < iteration ->
  nth_error (last_of_each_group iteration i losses) j =
  option_map (fun l => fdiv (fadd (of_Z 0) l) (of_Z iteration))
    (nth_error losses
       (Z.to_nat (iteration - 1 - Z.of_nat i mod iteration)
        + j * Z.to_nat iteration)).
Proof.
  induction losses as [| l losses IH]; intros i j Hit.
  - simpl. destruct j; simpl;
      destruct (Z.to_nat (iteration - 1 - Z.of_nat i mod iteration) + _)%nat;
      reflexivity.
  - pose proof (Z.mod_pos_bound (Z.of_nat i) iteration Hit) as Hb.
    pose proof (mod_succ_group (Z.of_nat i) iteration ltac:(lia) Hit) as Hs.
    replace (Z.of_nat i + 1) with (Z.of_nat (S i)) in Hs by lia.
    cbn [last_of_each_group].
    destruct (Z.eqb_spec (Z.of_nat i mod iteration) (iteration - 1)) as [He | Hne].
    + replace (Z.to_nat (iteration - 1 - Z.of_nat i mod iteration)) with 0%nat by lia.
      destruct j as [| j]; [reflexivity |].
      cbn [app nth_error]. rewrite (IH (S i) j Hit), Hs.
      f_equal. 
      replace (0 + S j * Z.to_nat iteration)%nat
        with (S (Z.to_nat (iteration - 1 - 0) + j * Z.to_nat iteration)) by lia.
      reflexivity.
    + cbn [app]. rewrite (IH (S i) j Hit), Hs. f_equal.
      replace (Z.to_nat (iteration - 1 - Z.of_nat i mod iteration)
               + j * Z.to_nat iteration)%nat
        with (S (Z.to_nat (iteration - 1 - (Z.of_nat i mod iteration + 1))
                 + j * Z.to_nat iteration)) by lia.
      reflexivity.
Qed.

Section RecordedLosses.
Context {F net batch plateau : Type} `{Scalar F} `{Torch F net batch plateau}.

#[local] Abbreviation locals := (locals F net batch plateau).

(** X1: in a completed epoch with [iteration > 0], the [j]-th entry the
    epoch appends to [loss_list] is computed from the loss of batch number
    [(j + 1) * iteration - 1] alone (added to the [0.0] of the reset
    accumulator, over [iteration]); the other batches of the group do not
    enter it, and an entry exists exactly for the batches with such a
    number. *)
Theorem recorded_loss_is_last_batch_of_group ds kind iteration (st st' : locals) :
  0 < iteration ->
  train_epoch ds kind iteration st = Ok st' ->
  exists ev recorded,
    trace st' = trace st ++ ev /\
    List.length (step_losses ev) = List.length (traLoader ds) /\
    loss_list st' = loss_list st ++ recorded /\
    forall j,
      nth_error recorded j =
      option_map (fun l => fdiv (fadd (of_Z 0) l) (of_Z iteration))
        (nth_error (step_losses ev)
           (Z.to_nat iteration - 1 + j * Z.to_nat iteration)).
Proof.
  intros Hit Hrun.
  apply train_epoch_records in Hrun as (ev & Htr & Hlen & Hll).
  exists ev, (last_of_each_group iteration 0 (step_losses ev)).
  repeat split; try assumption.
  intros j. rewrite last_of_each_group_nth by exact Hit.
  simpl Z.of_nat. rewrite Z.mod_0_l by lia.
  replace (Z.to_nat (iteration - 1 - 0)) with (Z.to_nat iteration - 1)%nat by lia.
  reflexivity.
Qed.

End RecordedLosses.

(** The first epoch over [pair_data] with [iteration = 2]: the one entry
    recorded is the second batch's loss over 2. *)
Lemma recorded_loss_run :
  train_epoch Scripted.pair_data (select_criterion Scripted.default_args) 2
    Scripted.pair_after_one = Ok Scripted.pair_after_two /\
  exists (ev : list (event float (Scripted.batch float))) recorded,
    loss_list Scripted.pair_after_two
      = loss_list Scripted.pair_after_one ++ recorded /\
    nth_error recorded 0 =
      option_map (fun l => fdiv (fadd (of_Z 0) l) (of_Z 2))
        (nth_error (step_losses ev) 1).
Proof.
  assert (H2 : train_epoch Scripted.pair_data
                 (select_criterion Scripted.default_args) 2
                 Scripted.pair_after_one
               = Ok Scripted.pair_after_two) by (vm_compute; reflexivity).
  split; [exact H2 |].
  destruct (recorded_loss_is_last_batch_of_group Scripted.pair_data
              (select_criterion Scripted.default_args) 2
              Scripted.pair_after_one Scripted.pair_after_two
              ltac:(lia) H2) as (ev & recorded & _ & _ & Hll & Hnth).
  exists ev, recorded. split; [exact Hll | exact (Hnth 0%nat)].
Defined.

(** ** How a run of [train] can end *)
Section Outcomes.
Context {F net batch plateau : Type} `{Scalar F} `{Torch F net batch plateau}.

#[local] Abbreviation locals := (locals F net batch plateau).
#[local] Abbreviation event := (event F batch).

Lemma batch_loop_zero_iteration kind i loader (st : locals) :
  loader <> [] ->
  batch_loop kind 0 i loader st = Raise ZeroDivisionError.
Proof.
  destruct loader as [| data loader]; [contradiction |]. intros _. reflexivity.
Qed.

(** X2: with [iteration = 0], a run of at least one epoch over a non-empty
    training loader raises [ZeroDivisionError] (at [i % iteration] of the
    first batch); nothing is evaluated or saved. *)
Theorem zero_iteration_raises ds args backbone_ver epoch_num (lr : F) :
  0 < epoch_num ->
  traLoader ds <> [] ->
  train ds args backbone_ver epoch_num 0 lr = Raise ZeroDivisionError.
Proof.
  intros Hn Hne. unfold train, train_epochs.
  destruct (Z.to_nat epoch_num) as [| epochs] eqn:He; [lia |].
  cbn [epoch_loop]. unfold train_epoch. cbv zeta.
  rewrite batch_loop_zero_iteration by exact Hne. reflexivity.
Qed.

(** X4: once the epoch loop of a run has completed, the run returns
    exactly when the test pass meets at least one label and as many labels
    as there are class names; [save_history] then cannot run out of any of
    the three per-epoch lists, and the network is saved as the last epoch
    left it.  Otherwise the run ends in the [ValueError] of
    [classification_report], and nothing is saved. *)
Theorem train_returns_or_report_fails ds args backbone_ver epoch_num iteration
    (lr : F) (st0 : locals) :
  train_epochs ds args backbone_ver epoch_num iteration lr = Ok st0 ->
  let occurring :=
    unique_labels (loader_labels (tesLoader ds))
      (loader_predictions (model st0) (tesLoader ds)) in
  (occurring <> [] ->
   List.length occurring = List.length (classes ds) ->
   exists (st : locals) files,
     train ds args backbone_ver epoch_num iteration lr = Ok (st, files) /\
     save_pt files = model st0) /\
  (occurring = [] \/ List.length occurring <> List.length (classes ds) ->
   exists msg,
     train ds args backbone_ver epoch_num iteration lr = Raise (ValueError msg)).
Proof.
  intros Hloop. cbv zeta.
  destruct (eval_model_test_cases (model st0) (tesLoader ds) (classes ds)
              (trace st0)) as [(Hne & Hlen & Htest) | (Hbad & msg & Htest)].
  - split; [| intros [Hnil | Hneq]; contradiction].
    intros _ _. unfold train. rewrite Hloop. cbn [bind]. rewrite Htest.
    cbn [bind].
    unfold train_epochs in Hloop.
    apply epoch_loop_lengths in Hloop as (Ht & Hv & Hl & _). simpl in Ht, Hv, Hl.
    match goal with
    | |- context [save_history args st0 ?r ?cm] =>
        destruct (save_history_total args st0 r cm ltac:(lia) ltac:(lia))
          as [files Hsave]
    end.
    rewrite Hsave. cbn [bind]. do 2 eexists. split; [reflexivity |].
    unfold save_history in Hsave.
    apply bind_Ok_inv in Hsave as (acc_rows & _ & Hsave).
    apply bind_Ok_inv in Hsave as (loss_rows & _ & Hsave).
    injection Hsave as <-. reflexivity.
  - split.
    + intros Hne Hlen. destruct Hbad; contradiction.
    + intros _. exists msg. unfold train. rewrite Hloop. cbn [bind].
      rewrite Htest. reflexivity.
Qed.

End Outcomes.

(** ** The CSV files, read back *)
Section CsvFiles.
Context {F net batch plateau : Type} `{Scalar F} `{Torch F net batch plateau}.

#[local] Abbreviation locals := (locals F net batch plateau).

(** Indexing a list at [k], [k+1], ..., [k+n-1] and keeping what exists
    gives the [n] elements from [k] on (fewer at the end of the list). *)
Lemma pick_range (l : list F) (n : nat) : forall k,
  flat_map (fun i => match nth_error l i with Some x => [x] | None => [] end)
    (seq k n)
  = firstn n (skipn k l).
Proof.
  induction n as [| n IH]; intros k; simpl.
  - reflexivity.
  - rewrite IH. destruct (nth_error l k) as [x |] eqn:Hk.
    + apply nth_error_split in Hk as (l1 & l2 & -> & <-).
      assert (Hhere : skipn (List.length l1) (l1 ++ x :: l2) = x :: l2).
      { rewrite skipn_app, skipn_all, Nat.sub_diag. reflexivity. }
      assert (Hnext : skipn (S (List.length l1)) (l1 ++ x :: l2) = l2).
      { rewrite skipn_app, skipn_all2 by lia.
        replace (S (List.length l1) - List.length l1)%nat with 1%nat by lia.
        reflexivity. }
      rewrite Hhere, Hnext. reflexivity.
    + apply nth_error_None in Hk.
      rewrite !skipn_all2 by lia. rewrite firstn_nil. reflexivity.
Qed.

Lemma getitem_Ok (l : list F) i x :
  getitem l i = Ok x -> nth_error l i = Some x /\ (i < List.length l)%nat.
Proof.
  unfold getitem. destruct (nth_error l i) as [y |] eqn:Hn; [| discriminate].
  intros Hx. injection Hx as <-. split; [reflexivity |].
  apply nth_error_Some. congruence.
Qed.

Lemma getitem_raise (l : list F) i e :
  getitem l i = Raise e -> e = IndexError.
Proof.
  unfold getitem. destruct (nth_error l i); [discriminate |].
  intros Hr. injection Hr as <-. reflexivity.
Qed.

Lemma column_cons (j : nat) (row : list (cell F)) rows :
  column j (row :: rows)
  = match nth_error row j with Some (Num x) => [x] | _ => [] end ++ column j rows.
Proof. reflexivity. Qed.

Lemma write_acc_rows_columns (tra val lrs : list F) range : forall rows,
  write_acc_rows tra val lrs range = Ok rows ->
  let pick (l : list F) i :=
    match nth_error l i with Some x => [x] | None => [] end in
  column 0 rows = flat_map (pick tra) range /\
  column 1 rows = flat_map (pick val) range /\
  column 2 rows = flat_map (pick lrs) range /\
  Forall (fun row => List.length row = 3%nat) rows /\
  Forall (fun i => (i < List.length val)%nat /\ (i < List.length lrs)%nat) range.
Proof.
  induction range as [| i range IH]; intros rows Hw; simpl in Hw.
  - injection Hw as <-. simpl. repeat split; constructor.
  - apply bind_Ok_inv in Hw as (a & Ha & Hw).
    apply bind_Ok_inv in Hw as (v & Hv & Hw).
    apply bind_Ok_inv in Hw as (r & Hr & Hw).
    apply bind_Ok_inv in Hw as (rows' & Hrows & Hw).
    injection Hw as <-.
    apply getitem_Ok in Ha as (Ha & _), Hv as (Hv & Hvl), Hr as (Hr & Hrl).
    specialize (IH rows' Hrows). cbv zeta in IH.
    destruct IH as (Hc0 & Hc1 & Hc2 & Hc3 & Hc4).
    cbv zeta. rewrite !column_cons, Hc0, Hc1, Hc2. cbn [nth_error flat_map].
    rewrite Ha, Hv, Hr. repeat split; auto.
Qed.

Lemma write_loss_rows_column (losses : list F) range : forall rows,
  write_loss_rows losses range = Ok rows ->
  column 0 rows
  = flat_map (fun i => match nth_error losses i with
                       | Some x => [x]
                       | None => []
                       end) range /\
  Forall (fun row => List.length row = 1%nat) rows.
Proof.
  induction range as [| i range IH]; intros rows Hw; simpl in Hw.
  - injection Hw as <-. simpl. split; constructor.
  - apply bind_Ok_inv in Hw as (x & Hx & Hw).
    apply bind_Ok_inv in Hw as (rows' & Hrows & Hw).
    injection Hw as <-. apply getitem_Ok in Hx as (Hx & _).
    destruct (IH rows' Hrows) as (Hc0 & Hc1).
    rewrite column_cons, Hc0. cbn [nth_error flat_map]. rewrite Hx.
    split; auto.
Qed.

Lemma write_acc_rows_raise (tra val lrs : list F) range : forall e,
  write_acc_rows tra val lrs range = Raise e -> e = IndexError.
Proof.
  induction range as [| i range IH]; intros e Hw; simpl in Hw.
  - discriminate.
  - destruct (getitem tra i) as [a | e1] eqn:Ha; simpl in Hw;
      [| injection Hw as <-; eapply getitem_raise, Ha].
    destruct (getitem val i) as [v | e1] eqn:Hv; simpl in Hw;
      [| injection Hw as <-; eapply getitem_raise, Hv].
    destruct (getitem lrs i) as [r | e1] eqn:Hr; simpl in Hw;
      [| injection Hw as <-; eapply getitem_raise, Hr].
    destruct (write_acc_rows tra val lrs range) as [rows | e1] eqn:Hrows;
      simpl in Hw; [discriminate |].
    injection Hw as <-. apply IH. reflexivity.
Qed.

Lemma write_acc_rows_longer (tra val lrs : list F) range :
  Forall (fun i => (i < List.length tra)%nat) range ->
  (List.length tra <= List.length val)%nat ->
  (List.length tra <= List.length lrs)%nat ->
  exists rows, write_acc_rows tra val lrs range = Ok rows.
Proof.
  intros Hall Hv Hl. induction Hall as [| i range Hi _ IH]; simpl.
  - eauto.
  - destruct (getitem_total tra i Hi) as [a ->].
    destruct (getitem_total val i ltac:(lia)) as [v ->].
    destruct (getitem_total lrs i ltac:(lia)) as [r ->].
    destruct IH as [rows ->]. simpl. eauto.
Qed.

(** X6: [save_history] writes [acc_len = len(tra_acc_list)] rows.  When the
    other two lists are at least that long it succeeds, and the columns of
    [acc.csv] read back as [tra_acc_list] and the first [acc_len] entries
    of [val_acc_list] and [lr_list] (longer lists are cut without notice),
    the column of [loss.csv] as [loss_list]; when one of them is shorter it
    raises [IndexError]. *)
Theorem save_history_columns_or_IndexError args (st : locals) report cm :
  let acc_len := List.length (tra_acc_list st) in
  ((acc_len <= List.length (val_acc_list st))%nat ->
   (acc_len <= List.length (lr_list st))%nat ->
   exists files,
     save_history args st report cm = Ok files /\
     column 0 (data_rows (acc_csv files)) = tra_acc_list st /\
     column 1 (data_rows (acc_csv files)) = firstn acc_len (val_acc_list st) /\
     column 2 (data_rows (acc_csv files)) = firstn acc_len (lr_list st) /\
     column 0 (data_rows (loss_csv files)) = loss_list st /\
     Forall (fun row => List.length row = 3%nat) (data_rows (acc_csv files)) /\
     Forall (fun row => List.length row = 1%nat) (data_rows (loss_csv files))) /\
  ((List.length (val_acc_list st) < acc_len)%nat \/
   (List.length (lr_list st) < acc_len)%nat ->
   save_history args st report cm = Raise IndexError).
Proof.
  cbv zeta. split.
  - intros Hv Hl. unfold save_history.
    destruct (write_acc_rows_longer (tra_acc_list st) (val_acc_list st) (lr_list st)
                (seq 0 (List.length (tra_acc_list st)))
                (range_in_bounds _) Hv Hl) as [acc_rows Hacc].
    destruct (write_loss_rows_total (loss_list st)
                (seq 0 (List.length (loss_list st))) (range_in_bounds _))
      as [loss_rows Hloss].
    rewrite Hacc, Hloss. simpl. eexists. split; [reflexivity |]. simpl.
    apply write_acc_rows_columns in Hacc. cbv zeta in Hacc.
    destruct Hacc as (Hc0 & Hc1 & Hc2 & Hc3 & _).
    apply write_loss_rows_column in Hloss as (Hl0 & Hl1).
    rewrite Hc0, Hc1, Hc2, Hl0, !pick_range. simpl skipn.
    rewrite !firstn_all. repeat split; assumption.
  - intros Hshort. unfold save_history.
    destruct (write_acc_rows (tra_acc_list st) (val_acc_list st) (lr_list st)
                (seq 0 (List.length (tra_acc_list st)))) as [rows | e] eqn:Hacc.
    + exfalso. apply write_acc_rows_columns in Hacc. cbv zeta in Hacc.
      destruct Hacc as (_ & _ & _ & _ & Hb). rewrite Forall_forall in Hb.
      destruct Hshort as [Hs | Hs].
      * specialize (Hb (List.length (val_acc_list st)) ltac:(apply in_seq; lia)). lia.
      * specialize (Hb (List.length (lr_list st)) ltac:(apply in_seq; lia)). lia.
    + simpl. apply write_acc_rows_raise in Hacc as ->. reflexivity.
Qed.

(** X5: the CSV files of a completed run of [train] hold exactly the four
    lists: read back column by column, [acc.csv] gives [tra_acc_list],
    [val_acc_list] and [lr_list], and [loss.csv] gives [loss_list]. *)
Theorem train_csv_round_trip ds args backbone_ver epoch_num iteration (lr : F)
    (st : locals) files :
  train ds args backbone_ver epoch_num iteration lr = Ok (st, files) ->
  column 0 (data_rows (acc_csv files)) = tra_acc_list st /\
  column 1 (data_rows (acc_csv files)) = val_acc_list st /\
  column 2 (data_rows (acc_csv files)) = lr_list st /\
  column 0 (data_rows (loss_csv files)) = loss_list st.
Proof.
  intros Hrun.
  apply train_inv in Hrun as (st0 & report & cm & tr & Hloop & _ & Hsave & ->).
  unfold train_epochs in Hloop.
  apply epoch_loop_lengths in Hloop as (Ht & Hv & Hl & _). simpl in Ht, Hv, Hl.
  unfold save_history in Hsave.
  apply bind_Ok_inv in Hsave as (acc_rows & Hacc & Hsave).
  apply bind_Ok_inv in Hsave as (loss_rows & Hloss & Hsave).
  injection Hsave as <-. simpl.
  apply write_acc_rows_columns in Hacc. cbv zeta in Hacc.
  destruct Hacc as (Hc0 & Hc1 & Hc2 & _).
  apply write_loss_rows_column in Hloss as (Hl0 & _).
  rewrite Hc0, Hc1, Hc2, Hl0, !pick_range. simpl skipn.
  replace (List.length (tra_acc_list st0)) with (List.length (val_acc_list st0)) at 2
    by lia.
  replace (List.length (tra_acc_list st0)) with (List.length (lr_list st0)) at 2
    by lia.
  rewrite !firstn_all. repeat split; reflexivity.
Qed.

End CsvFiles.

(** ** What the test evaluation returns *)

Lemma count_label_total (l : list Z) :
  NoDup l ->
  forall y, incl y l ->
  list_sum (map (fun a => count_label a y) l) = List.length y.
Proof.
  intros Hnd. induction y as [| t y IH]; intros Hin.
  - unfold count_label. simpl. apply list_sum_map_zero.
  - unfold count_label in *. simpl.
    rewrite (map_ext _ (fun a => (if Z.eqb t a then 1 else 0)
                                 + List.length (filter (Z.eqb a) y))%nat).
    + rewrite list_sum_map_add, indicator_sum, IH; auto with datatypes.
      intros x Hx. apply Hin. right. exact Hx.
    + intros a. rewrite (Z.eqb_sym a t). destruct (Z.eqb t a); reflexivity.
Qed.

(** The correct predictions are the diagonal cells. *)
Lemma count_pair_diagonal (l : list Z) :
  NoDup l ->
  forall y_true y_pred,
  incl y_true l ->
  list_sum (map (fun a => count_pair a a y_true y_pred) l)
  = count_equal y_true y_pred.
Proof.
  intros Hnd. induction y_true as [| t y_true IH]; intros y_pred Hin.
  - simpl. apply list_sum_map_zero.
  - destruct y_pred as [| p y_pred].
    + simpl. apply list_sum_map_zero.
    + simpl count_pair. simpl count_equal.
      rewrite list_sum_map_add, IH by (intros x Hx; apply Hin; right; exact Hx).
      f_equal. destruct (Z.eqb_spec t p) as [<- | Hne].
      * rewrite (map_ext _ (fun a => if Z.eqb t a then 1 else 0)%nat)
          by (intros a; destruct (Z.eqb t a); reflexivity).
        apply indicator_sum; [exact Hnd | apply Hin; left; reflexivity].
      * rewrite (map_ext _ (fun _ => 0%nat)); [apply list_sum_map_zero |].
        intros a. destruct (Z.eqb_spec t a) as [<- | _]; [| reflexivity].
        destruct (Z.eqb_spec p t) as [-> | _]; [contradiction | reflexivity].
Qed.

Lemma map_fst_combine {A B : Type} (l : list A) : forall l' : list B,
  List.length l = List.length l' -> map fst (combine l l') = l.
Proof.
  induction l as [| a l IH]; intros [| b l'] Hlen; simpl in *;
    try discriminate; [reflexivity |].
  f_equal. apply IH. lia.
Qed.

(** The diagonal of a matrix given by a cell function over its labels. *)
Lemma diagonal_of_cells {F : Type} (d : F) (g : Z -> Z -> F) (rest : list Z) :
  forall done : list Z,
  diagonal_from d (List.length done)
    (map (fun a => map (g a) (done ++ rest)) rest)
  = map (fun a => g a a) rest.
Proof.
  induction rest as [| a rest IH]; intros done; simpl.
  - reflexivity.
  - f_equal.
    + rewrite map_app. simpl.
      rewrite app_nth2 by (rewrite length_map; lia).
      rewrite length_map, Nat.sub_diag. reflexivity.
    + specialize (IH (done ++ [a])).
      rewrite length_app in IH. simpl in IH.
      rewrite Nat.add_1_r, <- app_assoc in IH. exact IH.
Qed.

Section TestResult.
Context {F net batch plateau : Type} `{Scalar F} `{Torch F net batch plateau}.

(** X7: whenever [eval_model_test] returns, the report has one row per
    class name, in the order of the names; the confusion matrix is square
    with one row and one column per class name (so it fits the labels it
    is plotted with); the supports of the rows add up to the number of
    test samples; and the network was run forward once per test batch. *)
Theorem eval_model_test_shape (model : net) (loader : list batch)
    (names : list string) (tr tr' : list (event F batch))
    (report : list (report_row F)) (cm : list (list F)) :
  eval_model_test model loader names tr = Ok (report, cm, tr') ->
  map (@class_name F) report = names /\
  List.length cm = List.length names /\
  Forall (fun row => List.length row = List.length names) cm /\
  list_sum (map (@support F) report) = List.length (loader_labels loader) /\
  tr' = tr ++ map Forward loader.
Proof.
  intros Hrun.
  destruct (eval_model_test_cases model loader names tr)
    as [(_ & Hlen & Heq) | (_ & msg & Heq)];
    rewrite Heq in Hrun; [| discriminate].
  set (y_true := loader_labels loader) in *.
  set (y_pred := loader_predictions model loader) in *.
  set (cls := unique_labels y_true y_pred) in *.
  injection Hrun as <- <- <-.
  split.
  { rewrite map_map. simpl. apply map_snd_combine, Hlen. }
  split.
  { unfold confusion_matrix_all, confusion_counts. fold cls.
    rewrite !length_map. exact Hlen. }
  split.
  { unfold confusion_matrix_all, confusion_counts. fold cls.
    rewrite map_map. apply Forall_forall. intros row Hrow.
    apply in_map_iff in Hrow as (a & <- & _). rewrite !length_map. exact Hlen. }
  split; [| reflexivity].
  rewrite map_map. simpl.
  rewrite <- (map_map fst (fun a => count_label a y_true)).
  rewrite (map_fst_combine cls names Hlen).
  apply count_label_total.
  - apply unique_labels_NoDup.
  - intros x Hx. apply unique_labels_In, in_or_app. left. exact Hx.
Qed.

End TestResult.

Lemma eval_model_test_shape_run :
  exists report cm tr',
    eval_model_test 0%nat (tesLoader Scripted.pair_data) ["a"; "b"]%string []
      = Ok (report, cm, tr') /\
    map (@class_name float) report = ["a"; "b"]%string /\
    List.length cm = 2%nat.
Proof.
  destruct (eval_model_test 0%nat (tesLoader Scripted.pair_data)
              ["a"; "b"]%string [])
    as [[[report cm] tr'] | e] eqn:Hrun; [| vm_compute in Hrun; discriminate].
  exists report, cm, tr'. split; [reflexivity |].
  destruct (eval_model_test_shape 0%nat (tesLoader Scripted.pair_data)
              ["a"; "b"]%string [] tr' report cm Hrun) as (Hn & Hl & _).
  split; [exact Hn | exact Hl].
Defined.

#[local] Open Scope Q_scope.

Section TraceIsAccuracy.
Context {net batch plateau : Type} `{Torch Q net batch plateau}.

(** X8: the accuracy and the confusion matrix agree: for a loader with at
    least one row, the accuracy that [eval_model_valid] (or
    [eval_model_train]) appends for it is 100 times the trace of the
    matrix that [eval_model_test] returns for the same network and loader
    (in exact arithmetic). *)
Theorem accuracy_is_trace_of_confusion_matrix (model : net)
    (loader : list batch) (names : list string)
    (tr tr' tr0 : list (event Q batch)) (accs : list Q)
    (report : list (report_row Q)) (cm : list (list Q)) :
  loader_labels loader <> [] ->
  eval_model_test model loader names tr = Ok (report, cm, tr') ->
  exists acc,
    fst (eval_model_valid model loader accs tr0) = accs ++ [acc] /\
    fst (eval_model_train model loader accs tr0) = accs ++ [acc] /\
    acc == 100 * matrix_trace cm.
Proof.
  intros Hne Hrun.
  rewrite eval_model_valid_spec, eval_model_train_spec. cbv zeta. simpl fst.
  eexists. split; [reflexivity |]. split; [reflexivity |].
  unfold eval_model_test in Hrun. rewrite predict_loop_spec in Hrun. simpl in Hrun.
  apply bind_Ok_inv in Hrun as (rows & _ & Hrun). injection Hrun as _ <- _.
  set (y_true := loader_labels loader).
  set (y_pred := loader_predictions model loader).
  assert (Hlen : List.length y_true = List.length y_pred)
    by (symmetry; apply loader_predictions_length).
  unfold matrix_trace, confusion_matrix_all.
  rewrite (confusion_counts_total y_true y_pred Hlen).
  unfold confusion_counts. rewrite map_map.
  rewrite (map_ext _
             (fun a => map (fun b => fdiv (of_nat (count_pair a b y_true y_pred))
                                       (of_nat (List.length y_true)))
                         ([] ++ unique_labels y_true y_pred)))
    by (intros a; rewrite map_map; reflexivity).
  rewrite (diagonal_of_cells (of_Z 0)
             (fun a b => fdiv (of_nat (count_pair a b y_true y_pred))
                           (of_nat (List.length y_true)))
             (unique_labels y_true y_pred) []).
  rewrite <- (map_map (fun a => count_pair a a y_true y_pred)
                (fun c => fdiv (of_nat c) (of_nat (List.length y_true)))).
  rewrite row_sum_scaled.
  rewrite count_pair_diagonal.
  - unfold accuracy_score, of_nat. simpl. unfold Qdiv. ring.
  - apply unique_labels_NoDup.
  - intros x Hx. apply unique_labels_In, in_or_app. left. exact Hx.
Qed.

End TraceIsAccuracy.

#[local] Close Scope Q_scope.

Lemma accuracy_is_trace_run :
  exists report cm tr' acc,
    eval_model_test 0%nat [Scripted.two_rows (0 : Q)] ["a"; "b"]%string []
      = Ok (report, cm, tr') /\
    fst (eval_model_valid 0%nat [Scripted.two_rows (0 : Q)] [] []) = [] ++ [acc] /\
    (acc == 100 * matrix_trace cm)%Q.
Proof.
  destruct (eval_model_test 0%nat [Scripted.two_rows (0 : Q)] ["a"; "b"]%string [])
    as [[[report cm] tr'] | e] eqn:Hrun; [| vm_compute in Hrun; discriminate].
  assert (Hne : loader_labels [Scripted.two_rows (0 : Q)] <> [])
    by (simpl; discriminate).
  destruct (accuracy_is_trace_of_confusion_matrix 0%nat
              [Scripted.two_rows (0 : Q)] ["a"; "b"]%string [] tr' [] []
              report cm Hne Hrun) as (acc & Hv & _ & Hacc).
  exists report, cm, tr', acc. split; [reflexivity |]. split; assumption.
Defined.

(** ** Turning the focal loss off *)

(** X9: on a command line that argparse accepts, [train] runs with
    [CrossEntropyLoss] only if the command line says [--fl ""], [--fl=] or
    [--fl=--]; however else [--fl] is given or left out, the focal loss
    stays on. *)
Theorem focal_loss_off_only_by_empty_value (argv : list string)
    (args : namespace) :
  parse_args argv = Some args ->
  (select_criterion args = CrossEntropyLoss ->
   (exists pre post, argv = pre ++ ["--fl"; ""]%string ++ post) \/
   In "--fl="%string argv \/ In "--fl=--"%string argv) /\
  ((forall pre post, argv <> pre ++ ["--fl"; ""]%string ++ post) ->
   ~ In "--fl="%string argv -> ~ In "--fl=--"%string argv ->
   select_criterion args = FocalLoss).
Proof.
  intros Hparse.
  assert (Hoff : select_criterion args = CrossEntropyLoss ->
            (exists pre post, argv = pre ++ ["--fl"; ""]%string ++ post) \/
            In "--fl="%string argv \/ In "--fl=--"%string argv).
  { revert Hparse. unfold parse_args.
    destruct (scan_args argv no_options) as [raw |] eqn:Hscan; [| discriminate].
    cbn [option_map]. intros Heq. injection Heq as <-.
    unfold select_criterion, convert. cbn [arg_fl].
    destruct (raw_fl raw) as [v |] eqn:Hv; [| discriminate].
    intros Hfalse.
    assert (Hval : v = ""%string \/ v = "--"%string).
    { unfold get_values in Hfalse.
      destruct (String.eqb_spec v "--") as [-> | _]; [right; reflexivity |].
      left. cbn [truth] in Hfalse. unfold python_bool in Hfalse.
      destruct (String.eqb_spec v "") as [-> | _]; [reflexivity | discriminate]. }
    destruct (scan_args_fl_source argv no_options raw v Hscan Hv)
      as [Hnone | [(pre & post & Hargv & Harg) | Hin]].
    - discriminate Hnone.
    - destruct Hval as [-> | ->]; [| discriminate Harg].
      left. exists pre, post. exact Hargv.
    - destruct Hval as [-> | ->]; auto. }
  split; [exact Hoff |].
  intros Hpair Hempty Hdash.
  destruct (select_criterion args); [reflexivity |].
  destruct (Hoff eq_refl) as [(pre & post & Hargv) | [Hin | Hin]].
  - exfalso. exact (Hpair pre post Hargv).
  - contradiction.
  - contradiction.
Qed.

Lemma focal_loss_off_run :
  exists args,
    parse_args ["--fl"; ""; "--model"; "alexnet"]%string = Some args /\
    select_criterion args = CrossEntropyLoss /\
    ((exists pre post,
        ["--fl"; ""; "--model"; "alexnet"]%string
        = pre ++ ["--fl"; ""]%string ++ post) \/
     In "--fl="%string ["--fl"; ""; "--model"; "alexnet"]%string \/
     In "--fl=--"%string ["--fl"; ""; "--model"; "alexnet"]%string).
Proof.
  destruct (parse_args ["--fl"; ""; "--model"; "alexnet"]%string)
    as [args |] eqn:Hparse; [| vm_compute in Hparse; discriminate].
  exists args. split; [reflexivity |].
  assert (Hoff : select_criterion args = CrossEntropyLoss).
  { vm_compute in Hparse. injection Hparse as <-. reflexivity. }
  split; [exact Hoff |].
  exact (proj1 (focal_loss_off_only_by_empty_value
                  ["--fl"; ""; "--model"; "alexnet"]%string args Hparse) Hoff).
Defined.

(** ** The logged learning rates, and what a run costs *)
Section History.
Context {F net batch plateau : Type} `{Scalar F} `{Torch F net batch plateau}.

#[local] Abbreviation locals := (locals F net batch plateau).
#[local] Abbreviation event := (event F batch).

Lemma batch_loop_appends kind iteration loader : forall i (st st' : locals),
  batch_loop kind iteration i loader st = Ok st' ->
  exists recorded, loss_list st' = loss_list st ++ recorded.
Proof.
  induction loader as [| data loader IH]; intros i st st' Hrun; simpl in Hrun.
  - injection Hrun as <-. exists []. rewrite app_nil_r. reflexivity.
  - apply bind_Ok_inv in Hrun as (st1 & Hb & Hrest).
    apply train_batch_inv in Hb. cbv zeta in Hb.
    destruct Hb as (_ & _ & _ & _ & _ & _ & _ & _ & _ & Hll & _).
    apply IH in Hrest as (recorded & Hrec).
    eexists. rewrite Hrec, Hll, <- app_assoc. reflexivity.
Qed.

Lemma train_epoch_appends ds kind iteration (st st' : locals) :
  train_epoch ds kind iteration st = Ok st' ->
  exists acc_t acc_v recorded ev,
    tra_acc_list st' = tra_acc_list st ++ [acc_t] /\
    val_acc_list st' = val_acc_list st ++ [acc_v] /\
    lr_list st' = lr_list st ++ [optimizer_lr st] /\
    loss_list st' = loss_list st ++ recorded /\
    trace st' = trace st ++ ev.
Proof.
  intros Hrun.
  apply train_epoch_inv in Hrun as (st2 & l & Hloop & _ & Hinv).
  cbv zeta in Hinv. destruct Hinv as (_ & _ & Ht & Hv & Hll & Hl & _ & Htr).
  pose proof (batch_loop_frame _ _ _ _ _ _ Hloop) as (_ & _ & Ht' & Hv' & Hl').
  destruct (batch_loop_appends _ _ _ _ _ _ Hloop) as (recorded & Hrec).
  apply batch_loop_events in Hloop as (ev & Hev & _).
  do 2 eexists. exists recorded. eexists.
  rewrite Ht, Hv, Hl, Hll, Ht', Hv', Hl', Hrec, Htr, Hev. simpl.
  repeat split. rewrite <- !app_assoc. reflexivity.
Qed.

Lemma epoch_loop_appends ds kind iteration n : forall (st st' : locals),
  epoch_loop ds kind iteration n st = Ok st' ->
  exists t v r l ev,
    tra_acc_list st' = tra_acc_list st ++ t /\
    val_acc_list st' = val_acc_list st ++ v /\
    lr_list st' = lr_list st ++ r /\
    loss_list st' = loss_list st ++ l /\
    trace st' = trace st ++ ev /\
    List.length t = n /\ List.length v = n /\ List.length r = n /\
    (0%nat < n -> exists r', r = optimizer_lr st :: r')%nat.
Proof.
  induction n as [| n IH]; intros st st' Hrun; simpl in Hrun.
  - injection Hrun as <-. exists [], [], [], [], []. rewrite !app_nil_r.
    repeat split. intros Hn. inversion Hn.
  - apply bind_Ok_inv in Hrun as (st1 & H1 & H2).
    apply train_epoch_appends in H1
      as (acc_t & acc_v & rec1 & ev1 & Ht & Hv & Hl & Hll & Htr).
    apply IH in H2
      as (t & v & r & l & ev & Ht' & Hv' & Hl' & Hll' & Htr' & Ln1 & Ln2 & Ln3 & _).
    exists (acc_t :: t), (acc_v :: v), (optimizer_lr st :: r), (rec1 ++ l), (ev1 ++ ev).
    rewrite Ht', Hv', Hl', Hll', Htr', Ht, Hv, Hl, Hll, Htr, <- !app_assoc. simpl.
    repeat split; try (f_equal; assumption). intros _. eauto.
Qed.

(** X11: the learning rate logged for the first epoch is the [lr] that
    [train] was called with, whatever the scheduler does later. *)
Theorem first_logged_rate_is_lr ds args backbone_ver epoch_num iteration (lr : F)
    (st : locals) :
  0 < epoch_num ->
  train_epochs ds args backbone_ver epoch_num iteration lr = Ok st ->
  exists rest, lr_list st = lr :: rest.
Proof.
  intros Hn Hrun. unfold train_epochs in Hrun.
  apply epoch_loop_appends in Hrun
    as (t & v & r & l & ev & _ & _ & Hl & _ & _ & _ & _ & _ & Hfirst).
  destruct (Hfirst ltac:(lia)) as (r' & ->). simpl in Hl. eauto.
Qed.

(** X12: the rate logged for an epoch is the one the scheduler left at the
    end of the epoch before: over two consecutive epochs, [lr_list] grows
    by the rate the first was entered with and by the result of the first
    epoch's [scheduler.step] on the last loss of that epoch. *)
Theorem logged_rate_follows_scheduler ds kind iteration (st st' st'' : locals) :
  train_epoch ds kind iteration st = Ok st' ->
  train_epoch ds kind iteration st' = Ok st'' ->
  exists l,
    loss st' = Some l /\
    lr_list st'' =
      lr_list st ++ [optimizer_lr st;
                     snd (scheduler_step (scheduler st) l (optimizer_lr st))].
Proof.
  intros H1 H2.
  apply train_epoch_appends in H2 as (_ & _ & _ & _ & _ & _ & Hl2 & _).
  apply train_epoch_inv in H1 as (st1 & l & Hloop & _ & Hinv).
  cbv zeta in Hinv. destruct Hinv as (_ & Hsched & _ & _ & _ & Hl1 & Hloss & _).
  apply batch_loop_frame in Hloop as (Hrate & Hs & _ & _ & Hl1').
  simpl in Hrate, Hs, Hl1'.
  exists l. split; [exact Hloss |].
  rewrite Hl2, Hl1, Hl1', <- app_assoc. simpl. do 3 f_equal.
  rewrite <- Hs, <- Hrate, <- Hsched. reflexivity.
Qed.

End History.

Section WholeRuns.
Context {F net batch plateau : Type} `{Scalar F} `{Torch F net batch plateau}.

#[local] Abbreviation locals := (locals F net batch plateau).
#[local] Abbreviation event := (event F batch).

Lemma count_events_app (p : event -> bool) (tr1 tr2 : list event) :
  count_events p (tr1 ++ tr2) = (count_events p tr1 + count_events p tr2)%nat.
Proof. unfold count_events. rewrite filter_app, length_app. reflexivity. Qed.

Lemma count_events_forward (loader : list batch) :
  count_events is_forward (map Forward loader : list event) = List.length loader /\
  count_events is_opt_step (map Forward loader : list event) = 0%nat /\
  count_events is_sched_step (map Forward loader : list event) = 0%nat.
Proof.
  unfold count_events. induction loader as [| d loader (IH1 & IH2 & IH3)]; simpl.
  - auto.
  - rewrite IH1. auto.
Qed.

Lemma batch_loop_counts kind iteration loader : forall i (st st' : locals),
  batch_loop kind iteration i loader st = Ok st' ->
  count_events is_forward (trace st')
    = (count_events is_forward (trace st) + List.length loader)%nat /\
  count_events is_opt_step (trace st')
    = (count_events is_opt_step (trace st) + List.length loader)%nat /\
  count_events is_sched_step (trace st')
    = count_events is_sched_step (trace st).
Proof.
  induction loader as [| data loader IH]; intros i st st' Hrun; simpl in Hrun.
  - injection Hrun as <-. simpl. lia.
  - apply bind_Ok_inv in Hrun as (st1 & Hb & Hrest).
    apply train_batch_inv in Hb. cbv zeta in Hb.
    destruct Hb as (_ & _ & _ & _ & _ & _ & _ & _ & _ & _ & Htr).
    apply IH in Hrest as (Hf & Ho & Hs). rewrite Hf, Ho, Hs, Htr.
    rewrite !count_events_app.
    destruct (Z.of_nat i mod iteration =? iteration - 1);
      unfold count_events; simpl; lia.
Qed.

Lemma train_epoch_counts ds kind iteration (st st' : locals) :
  train_epoch ds kind iteration st = Ok st' ->
  count_events is_forward (trace st')
    = (count_events is_forward (trace st)
       + (2 * List.length (traLoader ds) + List.length (valLoader ds)))%nat /\
  count_events is_opt_step (trace st')
    = (count_events is_opt_step (trace st) + List.length (traLoader ds))%nat /\
  count_events is_sched_step (trace st')
    = S (count_events is_sched_step (trace st)).
Proof.
  intros Hrun.
  apply train_epoch_inv in Hrun as (st2 & l & Hloop & _ & Hinv).
  cbv zeta in Hinv. destruct Hinv as (_ & _ & _ & _ & _ & _ & _ & Htr).
  apply batch_loop_counts in Hloop as (Hf & Ho & Hs).
  simpl trace in Hf, Ho, Hs. rewrite count_events_app in Hf, Ho, Hs.
  destruct (count_events_forward (traLoader ds)) as (Tf & To & Ts).
  destruct (count_events_forward (valLoader ds)) as (Vf & Vo & Vs).
  rewrite Htr, !count_events_app, Hf, Ho, Hs, Tf, To, Ts, Vf, Vo, Vs.
  unfold count_events. simpl. lia.
Qed.

Lemma epoch_loop_counts ds kind iteration n : forall (st st' : locals),
  epoch_loop ds kind iteration n st = Ok st' ->
  count_events is_forward (trace st')
    = (count_events is_forward (trace st)
       + n * (2 * List.length (traLoader ds) + List.length (valLoader ds)))%nat /\
  count_events is_opt_step (trace st')
    = (count_events is_opt_step (trace st) + n * List.length (traLoader ds))%nat /\
  count_events is_sched_step (trace st')
    = (count_events is_sched_step (trace st) + n)%nat.
Proof.
  induction n as [| n IH]; intros st st' Hrun; simpl in Hrun.
  - injection Hrun as <-. lia.
  - apply bind_Ok_inv in Hrun as (st1 & H1 & H2).
    apply train_epoch_counts in H1 as (Hf & Ho & Hs).
    apply IH in H2 as (Hf' & Ho' & Hs'). lia.
Qed.

(** X13: what a completed run of [train] with [epoch_num] epochs does in
    all: [epoch_num * len(traLoader)] optimizer steps, [epoch_num]
    scheduler steps, and [epoch_num * (2 * len(traLoader) + len(valLoader))
    + len(tesLoader)] forward calls: every epoch runs the network over
    the training loader twice, once to train and once to measure. *)
Theorem train_action_counts ds args backbone_ver epoch_num iteration (lr : F)
    (st : locals) files :
  0 <= epoch_num ->
  train ds args backbone_ver epoch_num iteration lr = Ok (st, files) ->
  Z.of_nat (count_events is_opt_step (trace st))
    = epoch_num * Z.of_nat (List.length (traLoader ds)) /\
  Z.of_nat (count_events is_sched_step (trace st)) = epoch_num /\
  Z.of_nat (count_events is_forward (trace st))
    = epoch_num * (2 * Z.of_nat (List.length (traLoader ds))
                   + Z.of_nat (List.length (valLoader ds)))
      + Z.of_nat (List.length (tesLoader ds)).
Proof.
  intros Hn Hrun.
  apply train_inv in Hrun as (st0 & report & cm & tr & Hloop & Htest & _ & ->).
  unfold train_epochs in Hloop.
  apply epoch_loop_counts in Hloop as (Hf & Ho & Hs).
  unfold count_events in Hf, Ho, Hs. simpl in Hf, Ho, Hs.
  unfold eval_model_test in Htest. rewrite predict_loop_spec in Htest.
  simpl in Htest.
  apply bind_Ok_inv in Htest as (rows & _ & Htest). injection Htest as _ _ <-.
  simpl trace. rewrite !count_events_app.
  destruct (count_events_forward (tesLoader ds)) as (Tf & To & Ts).
  rewrite Tf, To, Ts. unfold count_events. rewrite Hf, Ho, Hs.
  remember (Z.to_nat epoch_num) as n eqn:Hid.
  replace epoch_num with (Z.of_nat n) by lia.
  repeat split;
    repeat (rewrite ?Nat2Z.inj_add, ?Nat2Z.inj_mul); lia.
Qed.

(** With a negative [iteration] no batch index ends a group. *)
Lemma batch_loop_negative_iteration kind iteration loader :
  forall i (st st' : locals),
  iteration < 0 ->
  batch_loop kind iteration i loader st = Ok st' ->
  loss_list st' = loss_list st.
Proof.
  induction loader as [| data loader IH]; intros i st st' Hit Hrun; simpl in Hrun.
  - injection Hrun as <-. reflexivity.
  - apply bind_Ok_inv in Hrun as (st1 & Hb & Hrest).
    apply train_batch_inv in Hb. cbv zeta in Hb.
    destruct Hb as (_ & _ & _ & _ & _ & _ & _ & _ & _ & Hll & _).
    rewrite (IH _ _ _ Hit Hrest), Hll.
    pose proof (Z.mod_neg_bound (Z.of_nat i) iteration Hit) as Hb.
    destruct (Z.eqb_spec (Z.of_nat i mod iteration) (iteration - 1)) as [He | _];
      [lia | apply app_nil_r].
Qed.

(** X14: with a negative [iteration] a run never records a loss:
    [i % iteration] is never [iteration - 1], so [loss_list] stays empty
    and [loss.csv] holds only its header line. *)
Theorem negative_iteration_records_nothing ds args backbone_ver epoch_num
    iteration (lr : F) (st : locals) files :
  iteration < 0 ->
  train ds args backbone_ver epoch_num iteration lr = Ok (st, files) ->
  loss_list st = [] /\ loss_csv files = [[Text "loss_list"]].
Proof.
  intros Hit Hrun.
  apply train_inv in Hrun as (st0 & report & cm & tr & Hloop & _ & Hsave & ->).
  assert (Hempty : loss_list st0 = []).
  { unfold train_epochs in Hloop.
    assert (Hkeep : forall n (s s' : locals),
              epoch_loop ds (select_criterion args) iteration n s = Ok s' ->
              loss_list s' = loss_list s).
    { induction n as [| n IH]; intros s s' Hs; simpl in Hs.
      - injection Hs as <-. reflexivity.
      - apply bind_Ok_inv in Hs as (s1 & H1 & H2).
        rewrite (IH _ _ H2).
        apply train_epoch_inv in H1 as (s2 & l & Hb & _ & Hinv).
        cbv zeta in Hinv. destruct Hinv as (_ & _ & _ & _ & Hll & _).
        rewrite Hll. apply (batch_loop_negative_iteration _ _ _ _ _ _ Hit Hb). }
    apply Hkeep in Hloop. exact Hloop. }
  split; [exact Hempty |].
  unfold save_history in Hsave.
  apply bind_Ok_inv in Hsave as (acc_rows & _ & Hsave).
  apply bind_Ok_inv in Hsave as (loss_rows & Hloss & Hsave).
  injection Hsave as <-. simpl. rewrite Hempty in Hloss. simpl in Hloss.
  injection Hloss as <-. reflexivity.
Qed.

(** X15: the script as it is started ([epoch_num=40], [iteration=10]):
    whenever it runs to its end, argparse has accepted the command line,
    [acc.csv] has 40 data rows, [loss.csv] has
    [40 * floor(len(traLoader) / 10)], [result.log] shows the backbone and
    the two flags as they were parsed, and the training loader was not
    empty. *)
Theorem main_outcomes (ds : dataset batch) (argv : list string)
    (st : locals) files :
  main ds argv = Some (Ok (st, files)) ->
  exists args,
    parse_args argv = Some args /\
    List.length (data_rows (acc_csv files)) = 40%nat /\
    Z.of_nat (List.length (data_rows (loss_csv files)))
      = 40 * (Z.of_nat (List.length (traLoader ds)) / 10) /\
    log_backbone (result_log files) = arg_model args /\
    log_focal_loss (result_log files) = arg_fl args /\
    log_fullfinetune (result_log files) = arg_fullfinetune args /\
    traLoader ds <> [].
Proof.
  unfold main. destruct (parse_args argv) as [args |]; [| discriminate].
  intros Hmain. injection Hmain as Hrun.
  exists args. split; [reflexivity |].
  apply train_inv in Hrun as (st0 & report & cm & tr & Hloop & _ & Hsave & ->).
  pose proof (save_history_rows _ _ _ _ _ Hsave) as (Hloss & Hacc).
  assert (Hforty : 0 <= 40) by lia.
  pose proof (train_epochs_lengths _ _ _ _ _ _ _ Hforty Hloop)
    as (Ht & _ & _ & Hl).
  specialize (Hl ltac:(lia)).
  split; [lia |]. split; [lia |].
  unfold save_history in Hsave.
  apply bind_Ok_inv in Hsave as (acc_rows & _ & Hsave).
  apply bind_Ok_inv in Hsave as (loss_rows & _ & Hsave).
  injection Hsave as <-. simpl. repeat split.
  intros Hnil. unfold train_epochs in Hloop. simpl in Hloop.
  rewrite train_epoch_unbound in Hloop by (assumption || reflexivity).
  discriminate.
Qed.

End WholeRuns.

(** ** Further concrete runs *)

Lemma zero_iteration_run :
  train Scripted.pair_data Scripted.default_args "squeezenet1_1" 1 0
    Scripted.default_lr = Raise ZeroDivisionError.
Proof.
  assert (Hne : traLoader Scripted.pair_data <> []) by (simpl; discriminate).
  assert (Hpos : 0 < 1) by lia.
  exact (zero_iteration_raises Scripted.pair_data Scripted.default_args
           "squeezenet1_1" 1 Scripted.default_lr Hpos Hne).
Defined.

Lemma train_returns_run :
  exists st0 st files,
    train_epochs Scripted.five_data Scripted.default_args "squeezenet1_1" 3 2
      Scripted.default_lr = Ok st0 /\
    train Scripted.five_data Scripted.default_args "squeezenet1_1" 3 2
      Scripted.default_lr = Ok (st, files) /\
    save_pt files = model st0.
Proof.
  destruct (train_epochs Scripted.five_data Scripted.default_args
              "squeezenet1_1" 3 2 Scripted.default_lr) as [st0 | e] eqn:Hloop;
    [| vm_compute in Hloop; discriminate].
  assert (Hne : unique_labels (loader_labels (tesLoader Scripted.five_data))
                  (loader_predictions (model st0) (tesLoader Scripted.five_data))
                <> []) by (vm_compute; discriminate).
  assert (Hlen : List.length
                   (unique_labels (loader_labels (tesLoader Scripted.five_data))
                      (loader_predictions (model st0)
                         (tesLoader Scripted.five_data)))
                 = List.length (classes Scripted.five_data))
    by (vm_compute; reflexivity).
  destruct (proj1 (train_returns_or_report_fails Scripted.five_data
                     Scripted.default_args "squeezenet1_1" 3 2
                     Scripted.default_lr st0 Hloop) Hne Hlen)
    as (st & files & Hrun & Hsaved).
  exists st0, st, files. split; [reflexivity |]. split; assumption.
Defined.

Lemma train_csv_round_trip_run :
  exists st files,
    train Scripted.five_data Scripted.default_args "squeezenet1_1" 3 2
      Scripted.default_lr = Ok (st, files) /\
    column 1 (data_rows (acc_csv files)) = val_acc_list st /\
    column 0 (data_rows (loss_csv files)) = loss_list st.
Proof.
  destruct (train Scripted.five_data Scripted.default_args "squeezenet1_1" 3 2
              Scripted.default_lr) as [[st files] | e] eqn:Hrun;
    [| vm_compute in Hrun; discriminate].
  exists st, files. split; [reflexivity |].
  destruct (train_csv_round_trip Scripted.five_data Scripted.default_args
              "squeezenet1_1" 3 2 Scripted.default_lr st files Hrun)
    as (_ & Hv & _ & Hl).
  split; assumption.
Defined.

Lemma first_logged_rate_run :
  exists rest, lr_list Scripted.pair_after_two = Scripted.default_lr :: rest.
Proof.
  assert (H2 : train_epochs Scripted.pair_data Scripted.default_args
                 "squeezenet1_1" 2 2 Scripted.default_lr
               = Ok Scripted.pair_after_two) by (vm_compute; reflexivity).
  assert (Hpos : 0 < 2) by lia.
  exact (first_logged_rate_is_lr Scripted.pair_data Scripted.default_args
           "squeezenet1_1" 2 2 Scripted.default_lr Scripted.pair_after_two
           Hpos H2).
Defined.

Lemma logged_rate_follows_scheduler_run :
  exists l,
    loss Scripted.pair_after_one = Some l /\
    lr_list Scripted.pair_after_two =
      [] ++ [Scripted.default_lr;
             snd (Scripted.step_plateau None l Scripted.default_lr)].
Proof.
  assert (H1 : train_epoch Scripted.pair_data
                 (select_criterion Scripted.default_args) 2
                 (initial_locals Scripted.pair_data Scripted.default_args
                    "squeezenet1_1" Scripted.default_lr)
               = Ok Scripted.pair_after_one) by (vm_compute; reflexivity).
  assert (H2 : train_epoch Scripted.pair_data
                 (select_criterion Scripted.default_args) 2
                 Scripted.pair_after_one
               = Ok Scripted.pair_after_two) by (vm_compute; reflexivity).
  exact (logged_rate_follows_scheduler Scripted.pair_data
           (select_criterion Scripted.default_args) 2 _
           Scripted.pair_after_one Scripted.pair_after_two H1 H2).
Defined.

Lemma train_action_counts_run :
  exists st files,
    train Scripted.five_data Scripted.default_args "squeezenet1_1" 3 2
      Scripted.default_lr = Ok (st, files) /\
    Z.of_nat (count_events is_opt_step (trace st)) = 3 * 5 /\
    Z.of_nat (count_events is_forward (trace st)) = 3 * (2 * 5 + 1) + 1.
Proof.
  destruct (train Scripted.five_data Scripted.default_args "squeezenet1_1" 3 2
              Scripted.default_lr) as [[st files] | e] eqn:Hrun;
    [| vm_compute in Hrun; discriminate].
  exists st, files. split; [reflexivity |].
  assert (Hpos : 0 <= 3) by lia.
  destruct (train_action_counts Scripted.five_data Scripted.default_args
              "squeezenet1_1" 3 2 Scripted.default_lr st files Hpos Hrun)
    as (Ho & _ & Hf).
  split; assumption.
Defined.

Lemma negative_iteration_run :
  exists st files,
    train Scripted.five_data Scripted.default_args "squeezenet1_1" 3 (-2)
      Scripted.default_lr = Ok (st, files) /\
    loss_list st = [].
Proof.
  destruct (train Scripted.five_data Scripted.default_args "squeezenet1_1" 3 (-2)
              Scripted.default_lr) as [[st files] | e] eqn:Hrun;
    [| vm_compute in Hrun; discriminate].
  exists st, files. split; [reflexivity |].
  assert (Hneg : -2 < 0) by lia.
  exact (proj1 (negative_iteration_records_nothing Scripted.five_data
                  Scripted.default_args "squeezenet1_1" 3 (-2)
                  Scripted.default_lr st files Hneg Hrun)).
Defined.

(** The script started with [--fl False] on [five_data]. *)
Lemma main_outcomes_run :
  exists st files args,
    main Scripted.five_data ["--fl"; "False"]%string = Some (Ok (st, files)) /\
    parse_args ["--fl"; "False"]%string = Some args /\
    List.length (data_rows (acc_csv files)) = 40%nat /\
    log_focal_loss (result_log files) = Bool true.
Proof.
  destruct (main Scripted.five_data ["--fl"; "False"]%string)
    as [[[st files] | e] |] eqn:Hmain;
    [| vm_compute in Hmain; discriminate | vm_compute in Hmain; discriminate].
  exists st, files.
  destruct (main_outcomes Scripted.five_data ["--fl"; "False"]%string st files
              Hmain)
    as (args & Hparse & Hacc & _ & _ & Hfl & _).
  exists args. split; [reflexivity |]. split; [exact Hparse |].
  split; [exact Hacc |]. rewrite Hfl.
  vm_compute in Hparse. injection Hparse as <-. reflexivity.
Defined.
